(** * GpxSonar: the geodetic coordinate engine (class [CLatLon])

    A shallow embedding of the coordinate calculations of GpxSonar
    (the translation unit that implements [CLatLon]: spherical distance and
    projection, cross-track distance, Vincenty's inverse and direct solvers,
    UTM zone rules, UTM forward and inverse conversions, and the Cartesian
    conversions).

    The C++ code computes on [double].  The functions are written once, over
    an abstract arithmetic interface, and read under two interpretations:

    - [binary64]: the kernel's IEEE 754 binary64 numbers.  The basic
      operations (+, -, *, /, sqrt, fabs, comparisons) are exact there, so
      the loops that use nothing else can be run bit for bit.
    - [ideal]: real numbers extended with the IEEE special values
      (+infinity, -infinity, NaN).  Arithmetic is exact (no rounding, no
      overflow, one unsigned zero); the special values follow IEEE 754 and
      C's <math.h>.  The functions of <math.h> are interpreted here. *)

From Stdlib Require Import Floats Uint63.
From Stdlib Require Import ZArith Reals Lra Lia Bool List Ascii String.
Import ListNotations.

Set Implicit Arguments.

(** ** The arithmetic interface *)

(** The operations of IEEE 754 that C++ applies to [double] operands. *)
Class Arith (D : Type) : Type := {
  of_Z : Z -> D;
  dadd : D -> D -> D;
  dsub : D -> D -> D;
  dmul : D -> D -> D;
  ddiv : D -> D -> D;
  dneg : D -> D;
  dsqrt : D -> D;
  dfabs : D -> D;
  dltb : D -> D -> bool;
  dleb : D -> D -> bool;
  deqb : D -> D -> bool
}.

(** The functions of <math.h> the code calls, and the conversion of a
    [double] to [int]. *)
Class CMath (D : Type) `{Arith D} : Type := {
  dsin : D -> D;
  dcos : D -> D;
  dtan : D -> D;
  dasin : D -> D;
  dacos : D -> D;
  datan : D -> D;
  datan2 : D -> D -> D;
  dfmod : D -> D -> D;
  dpow : D -> D -> D;
  dfloor : D -> D;
  int_of_double : D -> Z
}.
Arguments CMath D {_}.

Declare Scope dbl_scope.
Delimit Scope dbl_scope with D.
Infix "+" := dadd : dbl_scope.
Infix "-" := dsub : dbl_scope.
Infix "*" := dmul : dbl_scope.
Infix "/" := ddiv : dbl_scope.
Notation "- x" := (dneg x) : dbl_scope.
Notation "x <? y" := (dltb x y) : dbl_scope.
Notation "x <=? y" := (dleb x y) : dbl_scope.
Notation "x >? y" := (dltb y x) : dbl_scope.
Notation "x >=? y" := (dleb y x) : dbl_scope.
Notation "x =? y" := (deqb x y) : dbl_scope.
(** An integral literal such as [180.] *)
Notation "# z" := (of_Z z%Z) (at level 1, format "# z") : dbl_scope.

(** ** Loops

    The three solvers iterate with [do { ... } while (cond);].  [body]
    computes the variables of one pass from the loop-carried value, [cond] is
    the loop test, [next] the value carried into the following pass.  [fuel]
    bounds the passes the model follows: [None] means that the loop is still
    running after [fuel] passes. *)
Fixpoint do_while {A B : Type} (body : A -> B) (cond : B -> bool)
    (next : B -> A) (fuel : nat) (a : A) : option B :=
  match fuel with
  | O => None
  | S n =>
      let b := body a in
      if cond b then do_while body cond next n (next b) else Some b
  end.

(** The variables after pass number [n] (counted from 0). *)
Fixpoint pass {A B : Type} (body : A -> B) (next : B -> A) (n : nat) (a : A) : B :=
  match n with
  | O => body a
  | S m => pass body next m (next (body a))
  end.

(** ** Types *)

(** Modelled from the spec: [CEllipsoid] is declared in Coord.h, which is not
    among the sources; the code reads its members [m_a] (semi-major axis) and
    [m_fInv] (inverse flattening). *)
Record CEllipsoid (D : Type) : Type := mkEllipsoid { m_a : D; m_fInv : D }.

(** Modelled from the spec: [CCartesianCoord] is declared in Coord.h; the
    code reads its members [m_x], [m_y], [m_z]. *)
Record CCartesianCoord (D : Type) : Type := mkCartesian { m_x : D; m_y : D; m_z : D }.

Record CLatLon (D : Type) : Type := mkLatLon { m_Latitude : D; m_Longitude : D }.

(** What [ToUTM] prints: zone number, zone letter, easting, northing. *)
Record UTMRef (D : Type) : Type :=
  mkUTM { utm_zone : Z; utm_letter : ascii; utm_easting : D; utm_northing : D }.

(** What [VincentyDistance] returns, with the two azimuths it stores through
    its pointer arguments. *)
Record VincentyResult (D : Type) : Type :=
  mkVincenty { vr_distance : D; vr_forward : D; vr_reverse : D }.

(** ** Characters and the zone-letter table *)

Definition m_strZoneLetters : string := "CDEFGHJKLMNPQRSTUVWX".

(** [toupper] in the C locale. *)
Definition toupper (c : ascii) : ascii :=
  let n := nat_of_ascii c in
  if (97 <=? n)%nat && (n <=? 122)%nat then ascii_of_nat (n - 32) else c.

(** [std::string::find(char)]: the first position of [c], [None] for [npos]. *)
Fixpoint string_find (s : string) (c : ascii) : option nat :=
  match s with
  | EmptyString => None
  | String a s' =>
      if Ascii.eqb a c then Some O
      else match string_find s' c with Some i => Some (S i) | None => None end
  end.

(** [s[i]] for [i] below the length. *)
Fixpoint string_at (s : string) (i : nat) : ascii :=
  match s, i with
  | EmptyString, _ => Ascii.zero
  | String a _, O => a
  | String _ s', S j => string_at s' j
  end.

(** The conversion of an [int] to [size_t] (32 bits on the target), which
    the comparison [iZoneLetter < m_strZoneLetters.size()] applies. *)
Definition to_size_t (i : Z) : Z := (i mod 2 ^ 32)%Z.

(** ** The code, over the basic operations *)

Section Algebraic.
Context {D : Type} {AD : Arith D}.
Local Open Scope dbl_scope.

(** A decimal literal [m * 10^-k], such as [298.257223563]. *)
Definition dec (m : Z) (k : nat) : D := #m / #(10 ^ Z.of_nat k).

(** [#define PI 3.14159265358979] *)
Definition PI : D := dec 314159265358979 14.
(** [#define EPSILON 5.e-14] *)
Definition EPSILON : D := dec 5 14.

(** Ellipsoid is initialized to WGS84 ellipsoid. *)
Definition m_Ellipsoid : CEllipsoid D := mkEllipsoid #6378137 (dec 298257223563 9).
(** Radius of the Earth in meters. *)
Definition m_Radius : D := dec 636670701896486 8.
(** Degrees to radians conversion. *)
Definition m_Deg2Rad : D := dec 174532925199433 16.

(** Modelled from the spec: [CCartesianCoord::dot] is declared in Coord.h;
    the spec lists it as the dot product. *)
Definition dot (N P : CCartesianCoord D) : D :=
  m_x N * m_x P + m_y N * m_y P + m_z N * m_z P.

(** Modelled from the spec: [CCartesianCoord::Normalize] is declared in
    Coord.h; the spec has it divide by the magnitude. *)
Definition Normalize (C : CCartesianCoord D) : CCartesianCoord D :=
  let r := dsqrt (m_x C * m_x C + m_y C * m_y C + m_z C * m_z C) in
  mkCartesian (m_x C / r) (m_y C / r) (m_z C / r).

(** [CLatLon::FromCartesian]: the variables the function computes before
    its loop. *)
Definition FromCartesian_ecc2 : D :=
  let flat := #1 / m_fInv m_Ellipsoid in
  #2 * flat - flat * flat.

Definition FromCartesian_r : D := m_a m_Ellipsoid * FromCartesian_ecc2.

Definition FromCartesian_p (C : CCartesianCoord D) : D :=
  dsqrt (m_x C * m_x C + m_y C * m_y C).

Definition FromCartesian_init (C : CCartesianCoord D) : D :=
  m_z C / (FromCartesian_p C * (#1 - FromCartesian_ecc2)).

(** One pass of the loop of [FromCartesian]: from [dTmp] to [(dLast, dTmp)]. *)
Definition FromCartesian_body (C : CCartesianCoord D) (dTmp : D) : D * D :=
  let ecc2 := FromCartesian_ecc2 in
  let r := FromCartesian_r in
  let p := FromCartesian_p C in
  let dLast := dTmp in
  let dTmp := m_z C / (p - r / dsqrt (#1 + (#1 - ecc2) * dTmp * dTmp)) in
  (dLast, dTmp).

(** [while (fabs(dLast - dTmp) > EPSILON)] *)
Definition FromCartesian_cond (v : D * D) : bool :=
  dfabs (fst v - snd v) >? EPSILON.

Definition FromCartesian_loop (fuel : nat) (C : CCartesianCoord D) : option (D * D) :=
  do_while (FromCartesian_body C) FromCartesian_cond snd fuel (FromCartesian_init C).

End Algebraic.

(** ** The code that calls <math.h> *)

Section Geodesy.
Context {D : Type} {AD : Arith D} {MD : CMath D}.
Local Open Scope dbl_scope.
Local Abbreviation sin := dsin.
Local Abbreviation cos := dcos.
Local Abbreviation tan := dtan.
Local Abbreviation asin := dasin.
Local Abbreviation acos := dacos.
Local Abbreviation atan := datan.
Local Abbreviation atan2 := datan2.
Local Abbreviation fmod := dfmod.
Local Abbreviation pow := dpow.
Local Abbreviation floor := dfloor.
Local Abbreviation sqrt := dsqrt.
Local Abbreviation fabs := dfabs.

(** [double CLatLon::SphericalDistance(CLatLon& P)] *)
Definition SphericalDistance (this P : CLatLon D) : D :=
  let dDeltaLong := (m_Longitude this - m_Longitude P) * m_Deg2Rad in
  let dLat1 := m_Latitude this * m_Deg2Rad in
  let dLat2 := m_Latitude P * m_Deg2Rad in
  let dDeltaLat := dLat1 - dLat2 in
  let dAngle := acos (sin dLat1 * sin dLat2
                      + cos dLat1 * cos dLat2 * cos dDeltaLong) in
  let dDistance := m_Radius * dAngle in
  if dDistance <? dec 1 2 then
    let dDeltaLong := dDeltaLong * cos dLat2 in
    m_Radius * sqrt (dDeltaLat * dDeltaLat + dDeltaLong * dDeltaLong)
  else dDistance.

(** [CLatLon CLatLon::SphericalProjection(double dAzimuth, double dDistance)] *)
Definition SphericalProjection (this : CLatLon D) (dAzimuth dDistance : D) : CLatLon D :=
  let dAzimuth := dAzimuth * m_Deg2Rad in
  let dLat1 := m_Deg2Rad * m_Latitude this in
  let s := dDistance / m_Radius in
  let dLat2 := asin (sin dLat1 * cos s + cos dLat1 * sin s * cos dAzimuth) in
  let dLong2 := atan2 (sin dAzimuth * sin s * cos dLat1)
                      (cos s - sin dLat1 * sin dLat2) in
  mkLatLon (dLat2 / m_Deg2Rad)
           (fmod (dLong2 / m_Deg2Rad + #180) #360 - #180).

(** [CCartesianCoord CLatLon::ToSphericalCartesian(void)] *)
Definition ToSphericalCartesian (this : CLatLon D) : CCartesianCoord D :=
  let dLat := m_Latitude this * m_Deg2Rad in
  let dLong := m_Longitude this * m_Deg2Rad in
  mkCartesian (m_Radius * cos dLong * cos dLat)
              (m_Radius * sin dLong * cos dLat)
              (m_Radius * sin dLat).

(** [CCartesianCoord CLatLon::SphericalCross(CLatLon& P)] *)
Definition SphericalCross (this P : CLatLon D) : CCartesianCoord D :=
  let dLat1 := m_Latitude this * m_Deg2Rad in
  let dLong1 := m_Longitude this * m_Deg2Rad in
  let dLat2 := m_Latitude P * m_Deg2Rad in
  let dLong2 := m_Longitude P * m_Deg2Rad in
  let dDeltaLat := dLat1 - dLat2 in
  let dSumLat := dLat1 + dLat2 in
  let dDeltaLong := (dLong1 - dLong2) / #2 in
  let dAvgLong := (dLong1 + dLong2) / #2 in
  mkCartesian
    (sin dSumLat * cos dAvgLong * sin dDeltaLong
     - sin dDeltaLat * sin dAvgLong * cos dDeltaLong)
    (sin dDeltaLat * cos dAvgLong * cos dDeltaLong
     + sin dSumLat * sin dAvgLong * sin dDeltaLong)
    (cos dLat1 * cos dLat2 * sin (#(-2) * dDeltaLong)).

(** The relative position [u] that [IsBetween] computes. *)
Definition IsBetween_u (this P1 P2 : CLatLon D) : D :=
  let cosLat := cos (m_Latitude this * m_Deg2Rad) in
  let u := (m_Longitude this - m_Longitude P1) * (m_Longitude P2 - m_Longitude P1)
             * cosLat * cosLat
           + (m_Latitude this - m_Latitude P1) * (m_Latitude P2 - m_Latitude P1) in
  u / ((m_Longitude P2 - m_Longitude P1) * (m_Longitude P2 - m_Longitude P1)
         * cosLat * cosLat
       + (m_Latitude P2 - m_Latitude P1) * (m_Latitude P2 - m_Latitude P1)).

(** [bool CLatLon::IsBetween(CLatLon& P1, CLatLon& P2)] *)
Definition IsBetween (this P1 P2 : CLatLon D) : bool :=
  let u := IsBetween_u this P1 P2 in
  (u >=? #0) && (u <? #1).

(** [double CLatLon::SphericalDistance(CLatLon& P1, CLatLon& P2)], the
    overload with two arguments. *)
Definition SphericalDistance2 (this P1 P2 : CLatLon D) : D :=
  let dSign := if negb (IsBetween this P1 P2) then #(-1) else #1 in
  let P := ToSphericalCartesian this in
  let N := Normalize (SphericalCross P1 P2) in
  dSign * fabs (m_Radius * (PI / #2 - acos (dot N P))).

(** *** Vincenty's inverse solver *)

(** The variables of [VincentyDistance] that are read after a pass of its
    loop. *)
Record VDPass : Type := mkVDPass {
  vd_lambda : D; vd_ss : D; vd_cs : D; vd_cosalpha2 : D; vd_c2sm : D;
  vd_dDeltaLambda : D
}.

(** One pass of the loop of [VincentyDistance]. *)
Definition VincentyDistance_body (flat omega sinu1 cosu1 sinu2 cosu2 : D)
    (lambda : D) : VDPass :=
  let testlambda := lambda in
  let ss1 := cosu2 * sin lambda in
  let ss2 := cosu1 * sinu2 - sinu1 * cosu2 * cos lambda in
  let ss := sqrt (ss1 * ss1 + ss2 * ss2) in
  let cs := sinu1 * sinu2 + cosu1 * cosu2 * cos lambda in
  let sinalpha := cosu1 * cosu2 * sin lambda / ss in
  let dtmp := asin sinalpha in
  let cosalpha := cos dtmp in
  let cosalpha2 := cosalpha * cosalpha in
  let c2sm := cs - #2 * sinu1 * sinu2 / cosalpha2 in
  let c := flat / #16 * cosalpha2 * (#4 + flat * (#4 - #3 * cosalpha2)) in
  let lambda := omega + (#1 - c) * flat * sinalpha
                  * (asin ss + c * ss * (c2sm + c * cs * (#(-1) + #2 * c2sm * c2sm))) in
  let dDeltaLambda := fabs (testlambda - lambda) in
  mkVDPass lambda ss cs cosalpha2 c2sm dDeltaLambda.

(** [while (dDeltaLambda > EPSILON)] *)
Definition VincentyDistance_cond (v : VDPass) : bool :=
  vd_dDeltaLambda v >? EPSILON.

Definition VincentyDistance_loop (flat omega sinu1 cosu1 sinu2 cosu2 : D)
    (fuel : nat) (lambda : D) : option VDPass :=
  do_while (VincentyDistance_body flat omega sinu1 cosu1 sinu2 cosu2)
           VincentyDistance_cond vd_lambda fuel lambda.

(** [double CLatLon::VincentyDistance(CLatLon& P, double *pForwardAzimuth,
    double *pReverseAzimuth)] *)
Definition VincentyDistance (fuel : nat) (this P : CLatLon D)
    : option (VincentyResult D) :=
  if (m_Latitude this =? m_Latitude P) && (m_Longitude this =? m_Longitude P) then
    Some (mkVincenty #0 #0 #0)
  else
    let dLat1 := m_Deg2Rad * m_Latitude this in
    let dLat2 := m_Deg2Rad * m_Latitude P in
    let dLong1 := m_Deg2Rad * m_Longitude this in
    let dLong2 := m_Deg2Rad * m_Longitude P in
    let a0 := m_a m_Ellipsoid in
    let flat := #1 / m_fInv m_Ellipsoid in
    let r := #1 - flat in
    let b0 := a0 * r in
    let tanu1 := r * tan dLat1 in
    let tanu2 := r * tan dLat2 in
    let dtmp := atan tanu1 in
    let cosu1 := cos dtmp in
    let sinu1 := sin dtmp in
    let dtmp := atan tanu2 in
    let cosu2 := cos dtmp in
    let sinu2 := sin dtmp in
    let omega := dLong2 - dLong1 in
    let lambda := omega in
    match VincentyDistance_loop flat omega sinu1 cosu1 sinu2 cosu2 fuel lambda with
    | None => None
    | Some v =>
        let lambda := vd_lambda v in
        let ss := vd_ss v in
        let cs := vd_cs v in
        let cosalpha2 := vd_cosalpha2 v in
        let c2sm := vd_c2sm v in
        let u2 := cosalpha2 * (a0 * a0 - b0 * b0) / (b0 * b0) in
        let a := #1 + (u2 / #16384) * (#4096 + u2 * (#(-768) + u2 * (#320 - #175 * u2))) in
        let b := (u2 / #1024) * (#256 + u2 * (#(-128) + u2 * (#74 - #47 * u2))) in
        let dsigma := b * ss * (c2sm + (b / #4) * (cs * (#(-1) + #2 * c2sm * c2sm)
                        - (b / #6) * c2sm * (#(-3) + #4 * ss * ss)
                          * (#(-3) + #4 * c2sm * c2sm))) in
        let s := b0 * a * (asin ss - dsigma) in
        let alpha12 := atan2 (cosu2 * sin lambda)
                             (cosu1 * sinu2 - sinu1 * cosu2 * cos lambda) / m_Deg2Rad in
        let alpha21 := atan2 (cosu1 * sin lambda)
                             (- sinu1 * cosu2 + cosu1 * sinu2 * cos lambda) / m_Deg2Rad in
        Some (mkVincenty s (fmod (alpha12 + #360) #360) (fmod (alpha21 + #180) #360))
    end.

(** *** Vincenty's direct solver *)

(** One pass of the loop of [VincentyProjection]: from [sigma] to
    [(lastsigma, sigma)]. *)
Definition VincentyProjection_body (s b0 a b sigma1 : D) (sigma : D) : D * D :=
  let lastsigma := sigma in
  let twosigmam := #2 * sigma1 + sigma in
  let ss := sin sigma in
  let cs := cos sigma in
  let c2sm := cos twosigmam in
  let deltasigma := b * ss * (c2sm + b / #4 * (cs * (#(-1) + #2 * c2sm * c2sm)
                      - b / #6 * c2sm * (#(-3) + #4 * ss * ss)
                        * (#(-3) + #4 * c2sm * c2sm))) in
  let sigma := s / (b0 * a) + deltasigma in
  (lastsigma, sigma).

(** [while (fabs(sigma - lastsigma) > EPSILON)] *)
Definition VincentyProjection_cond (v : D * D) : bool :=
  fabs (snd v - fst v) >? EPSILON.

Definition VincentyProjection_loop (s b0 a b sigma1 : D) (fuel : nat) (sigma : D)
    : option (D * D) :=
  do_while (VincentyProjection_body s b0 a b sigma1)
           VincentyProjection_cond snd fuel sigma.

(** [CLatLon CLatLon::VincentyProjection(double dAzimuth, double dDistance)] *)
Definition VincentyProjection (fuel : nat) (this : CLatLon D)
    (dAzimuth dDistance : D) : option (CLatLon D) :=
  let dAzimuth := dAzimuth * m_Deg2Rad in
  let dLat1 := m_Deg2Rad * m_Latitude this in
  let dLong1 := m_Deg2Rad * m_Longitude this in
  let s := dDistance in
  let a0 := m_a m_Ellipsoid in
  let flat := #1 / m_fInv m_Ellipsoid in
  let r := #1 - flat in
  let b0 := a0 * r in
  let tanu1 := r * tan dLat1 in
  let tansigma1 := tanu1 / cos dAzimuth in
  let u1 := atan tanu1 in
  let sinu1 := sin u1 in
  let cosu1 := cos u1 in
  let sinalpha := cosu1 * sin dAzimuth in
  let cosalpha := sqrt (#1 - sinalpha * sinalpha) in
  let usqr := cosalpha * cosalpha * (a0 * a0 - b0 * b0) / (b0 * b0) in
  let term1 := usqr / #16384 in
  let term2 := #4096 + usqr * (#(-768) + usqr * (#320 - #175 * usqr)) in
  let a := #1 + term1 * term2 in
  let b := usqr / #1024 * (#256 + usqr * (#(-128) + usqr * (#74 - #47 * usqr))) in
  let sigma := s / (b0 * a) in
  let sigma1 := atan tansigma1 in
  match VincentyProjection_loop s b0 a b sigma1 fuel sigma with
  | None => None
  | Some v =>
      let sigma := snd v in
      let twosigmam := #2 * sigma1 + sigma in
      let ss := sin sigma in
      let cs := cos sigma in
      let c2sm := cos twosigmam in
      let term1 := sinu1 * cs + cosu1 * ss * cos dAzimuth in
      let term4 := sinu1 * ss - cosu1 * cs * cos dAzimuth in
      let term2 := sinalpha * sinalpha + term4 * term4 in
      let term3 := r * sqrt term2 in
      let dLat2 := atan2 term1 term3 in
      let term1 := ss * sin dAzimuth in
      let term2 := cosu1 * cs - sinu1 * ss * cos dAzimuth in
      let lambda := atan2 term1 term2 in
      let c := flat / #16 * cosalpha * cosalpha
               * (#4 + flat * (#4 - #3 * cosalpha * cosalpha)) in
      let omega := lambda - (#1 - c) * flat * sinalpha
                     * (sigma + c * ss * (c2sm + c * cs * (#(-1) + #2 * c2sm * c2sm))) in
      let dLong2 := dLong1 + omega in
      Some (mkLatLon (fmod (dLat2 / m_Deg2Rad) #360)
                     (fmod (dLong2 / m_Deg2Rad) #360))
  end.

(** *** Cartesian inverse *)


End Geodesy.

(** ** UTM zones and conversions *)

Section UTM.
Context {D : Type} {AD : Arith D} {MD : CMath D}.
Local Open Scope dbl_scope.
Local Abbreviation sin := dsin.
Local Abbreviation cos := dcos.
Local Abbreviation tan := dtan.
Local Abbreviation fmod := dfmod.
Local Abbreviation pow := dpow.
Local Abbreviation floor := dfloor.
Local Abbreviation sqrt := dsqrt.

(** [int CLatLon::GetZone(void)] *)
Definition GetZone (this : CLatLon D) : Z :=
  let lat := m_Latitude this in
  let lon := m_Longitude this in
  let iZone := (Z.rem (int_of_double (floor ((lon + #180) / #6)%D)) 60 + 1)%Z in
  (* Special zones for places in northern Europe. *)
  let iZone :=
    if (lat >? #56) && (lat <=? #64) && (lon >? #3) && (lon <=? #12) then 32%Z
    else iZone in
  if (lat >? #72) && (lat <? #84) then
    if (lon >=? #0) && (lon <? #9) then 31%Z
    else if (lon >=? #9) && (lon <? #21) then 33%Z
    else if (lon >=? #21) && (lon <? #33) then 35%Z
    else if (lon >=? #33) && (lon <? #42) then 37%Z
    else iZone
  else iZone.

(** [char CLatLon::GetZoneLetter(void)] *)
Definition GetZoneLetter (this : CLatLon D) : ascii :=
  let lat := m_Latitude this in
  if (lat >=? #72) && (lat <=? #84) then "X"%char
  else
    let iZoneLetter := int_of_double (floor (lat + #80) / #8) in
    if (0 <=? iZoneLetter)%Z
       && (to_size_t iZoneLetter <? Z.of_nat (String.length m_strZoneLetters))%Z
    then string_at m_strZoneLetters (Z.to_nat iZoneLetter)
    else "Z"%char.

(** [std::string CLatLon::ToUTM(void)].  The function stands between
    comment marks in the source; it is the forward conversion the inverse
    [ConvertUTM] answers to.  The model returns the four values the function
    prints ([std::fixed], precision 0) rather than the string. *)
Definition ToUTM (this : CLatLon D) : UTMRef D :=
  let iZone := GetZone this in
  let cZoneLetter := GetZoneLetter this in
  let k0 := dec 9996 4 in
  let dEastingOffset := #500000 in
  let dNorthingOffsetSouth := #10000000 in
  let a := m_a m_Ellipsoid in
  let flat := #1 / m_fInv m_Ellipsoid in
  let ecc2 := #2 * flat - flat * flat in
  let ecc12 := ecc2 / (#1 - ecc2) in
  let dLatitude := m_Latitude this * m_Deg2Rad in
  let dLongitude := (fmod (m_Longitude this + #180) #360 - #180) * m_Deg2Rad in
  let dCentralLongitude := (#(iZone - 1) * #6 - #180 + #3) * m_Deg2Rad in
  let N := a / sqrt (#1 - ecc2 * sin dLatitude * sin dLatitude) in
  let T := tan dLatitude * tan dLatitude in
  let C := ecc12 * cos dLatitude * cos dLatitude in
  let A := cos dLatitude * (dLongitude - dCentralLongitude) in
  let M := a * ((#1 - ecc2 / #4 - #3 * ecc2 * ecc2 / #64
                   - #5 * ecc2 * ecc2 * ecc2 / #256) * dLatitude
                - (#3 * ecc2 / #8 + #3 * ecc2 * ecc2 / #32
                   + #45 * ecc2 * ecc2 * ecc2 / #1024) * sin (#2 * dLatitude)
                + (#15 * ecc2 * ecc2 / #256
                   + #45 * ecc2 * ecc2 * ecc2 / #1024) * sin (#4 * dLatitude)
                - (#35 * ecc2 * ecc2 * ecc2 / #3072) * sin (#6 * dLatitude)) in
  let dUTMEasting :=
    k0 * N * (A + (#1 - T + C) * A * A * A / #6
              + (#5 - #18 * T + T * T + #72 * C - #58 * ecc12)
                * A * A * A * A * A / #120)
    + dEastingOffset in
  let dUTMNorthing :=
    k0 * (M + N * tan dLatitude
              * (A * A / #2 + (#5 - T + #9 * C + #4 * C * C) * A * A * A * A / #24
                 + (#61 - #58 * T + T * T + #600 * C - #330 * ecc12)
                   * A * A * A * A * A * A / #720)) in
  let dUTMNorthing :=
    if m_Latitude this <? #0 then dUTMNorthing + dNorthingOffsetSouth
    else dUTMNorthing in
  let dUTMEasting := floor (dUTMEasting + dec 5 1) in
  let dUTMNorthing := floor (dUTMNorthing + dec 5 1) in
  mkUTM iZone cZoneLetter dUTMEasting dUTMNorthing.

(** [bool CLatLon::ConvertUTM(int iZone, char cZoneLetter, double dEasting,
    double dNorthing)]: the value returned and the state of [this]
    afterwards. *)
Definition ConvertUTM (this : CLatLon D) (iZone : Z) (cZoneLetter : ascii)
    (dEasting dNorthing : D) : bool * CLatLon D :=
  let k0 := dec 9996 4 in
  let dEastingOffset := #500000 in
  let dNorthingOffsetSouth := #1000000 in
  let a := m_a m_Ellipsoid in
  let flat := #1 / m_fInv m_Ellipsoid in
  let ecc2 := #2 * flat - flat * flat in
  let ecc12 := ecc2 / (#1 - ecc2) in
  let e1 := (#1 - sqrt (#1 - ecc2)) / (#1 + sqrt (#1 - ecc2)) in
  let x := dEasting - dEastingOffset in
  let y := dNorthing in
  let cZoneLetter := toupper cZoneLetter in
  match string_find m_strZoneLetters cZoneLetter with
  | None => (false, this)
  | Some _ =>
      let y :=
        if (Z.of_nat (nat_of_ascii cZoneLetter) - Z.of_nat (nat_of_ascii "N") <? 0)%Z
        then y - dNorthingOffsetSouth else y in
      let dCentralLongitude := (#(iZone - 1) * #6 - #180 + #3) * m_Deg2Rad in
      let M := y / k0 in
      let mu := M / (a * (#1 - ecc2 / #4 - #3 * ecc2 * ecc2 / #64
                          - #5 * ecc2 * ecc2 * ecc2 / #256)) in
      let phi1 := mu + (#3 * e1 / #2 - #27 * e1 * e1 * e1 / #32) * sin (#2 * mu)
                  + (#21 * e1 * e1 / #16 - #55 * e1 * e1 * e1 * e1 / #32) * sin (#4 * mu)
                  + (#151 * e1 * e1 * e1 / #96) * sin (#6 * mu) in
      let N1 := a / sqrt (#1 - ecc2 * sin phi1 * sin phi1) in
      let T1 := tan phi1 * tan phi1 in
      let C1 := ecc12 * cos phi1 * cos phi1 in
      let R1 := a * (#1 - ecc2) / pow (#1 - ecc2 * sin phi1 * sin phi1) (dec 15 1) in
      let D_ := x / (N1 * k0) in
      let dLatitude :=
        phi1 - (N1 * tan phi1 / R1)
               * (D_ * D_ / #2
                  - (#5 + #3 * T1 + #10 * C1 - #4 * C1 * C1 - #9 * ecc12)
                    * D_ * D_ * D_ * D_ / #24
                  + (#61 + #90 * T1 + #298 * C1 + #45 * T1 * T1 - #252 * ecc12
                     - #3 * C1 * C1) * D_ * D_ * D_ * D_ * D_ * D_ / #720) in
      let dLongitude :=
        (D_ - (#1 + #2 * T1 + C1) * D_ * D_ * D_ / #6
         + (#5 - #2 * C1 + #28 * T1 - #3 * C1 * C1 + #8 * ecc12 + #24 * T1 * T1)
           * D_ * D_ * D_ * D_ * D_ / #120) / cos phi1 in
      (true, mkLatLon (dLatitude / m_Deg2Rad)
                      ((dCentralLongitude + dLongitude) / m_Deg2Rad))
  end.

End UTM.

(** ** Cartesian conversions *)

Section Cartesian.
Context {D : Type} {AD : Arith D} {MD : CMath D}.
Local Open Scope dbl_scope.
Local Abbreviation sin := dsin.
Local Abbreviation cos := dcos.
Local Abbreviation atan2 := datan2.
Local Abbreviation sqrt := dsqrt.

(** [double CLatLon::VincentyDistance(CLatLon& P)]: the overload that
    drops the two azimuths. *)
Definition VincentyDistance1 (fuel : nat) (this P : CLatLon D) : option D :=
  match VincentyDistance fuel this P with
  | Some v => Some (vr_distance v)
  | None => None
  end.

(** [CCartesianCoord CLatLon::ToCartesian(void)] *)
Definition ToCartesian (this : CLatLon D) : CCartesianCoord D :=
  let a := m_a m_Ellipsoid in
  let flat := #1 / m_fInv m_Ellipsoid in
  let ecc2 := #2 * flat - flat * flat in
  let sinLat := sin (m_Latitude this * m_Deg2Rad) in
  let cosLat := cos (m_Latitude this * m_Deg2Rad) in
  let w := sqrt (#1 - ecc2 * sinLat * sinLat) in
  let r := a / w in
  let dLong := m_Longitude this * m_Deg2Rad in
  let x := r * cos dLong * cosLat in
  let y := r * sin dLong * cosLat in
  let z := r * (#1 - ecc2) * sinLat in
  mkCartesian x y z.

(** [void CLatLon::FromSphericalCartesian(CCartesianCoord& C)]: the point
    that the function stores into [this]. *)
Definition FromSphericalCartesian (C : CCartesianCoord D) : CLatLon D :=
  mkLatLon
    (atan2 (m_z C) (sqrt (m_x C * m_x C + m_y C * m_y C)) / m_Deg2Rad)
    (atan2 (m_y C) (m_x C) / m_Deg2Rad).

End Cartesian.

(** ** Interpretation in binary64 *)

(** The [double] nearest to an integer (exact below 2^53 in magnitude). *)
Definition b64_of_Z (z : Z) : float :=
  if (z <? 0)%Z then PrimFloat.opp (PrimFloat.of_uint63 (Uint63.of_Z (- z)))
  else PrimFloat.of_uint63 (Uint63.of_Z z).

#[export] Instance binary64 : Arith float := {|
  of_Z := b64_of_Z;
  dadd := PrimFloat.add;
  dsub := PrimFloat.sub;
  dmul := PrimFloat.mul;
  ddiv := PrimFloat.div;
  dneg := PrimFloat.opp;
  dsqrt := PrimFloat.sqrt;
  dfabs := PrimFloat.abs;
  dltb := PrimFloat.ltb;
  dleb := PrimFloat.leb;
  deqb := PrimFloat.eqb
|}.

(** ** Interpretation in exact arithmetic *)

Inductive ideal : Type :=
| Fin (r : R)
| PInf
| NInf
| NaN.

Definition rlt (x y : R) : bool := if Rlt_dec x y then true else false.
Definition rle (x y : R) : bool := if Rle_dec x y then true else false.
Definition req (x y : R) : bool := if Req_dec_T x y then true else false.

Definition inf_of_sign (pos : bool) : ideal := if pos then PInf else NInf.

(** The product of an infinity (of sign [pos]) and a real number. *)
Definition scale_inf (pos : bool) (r : R) : ideal :=
  if rlt 0 r then inf_of_sign pos
  else if rlt r 0 then inf_of_sign (negb pos)
  else NaN.

Definition xadd (x y : ideal) : ideal :=
  match x, y with
  | Fin a, Fin b => Fin (a + b)
  | NaN, _ | _, NaN => NaN
  | PInf, NInf | NInf, PInf => NaN
  | PInf, _ | _, PInf => PInf
  | NInf, _ | _, NInf => NInf
  end.

Definition xneg (x : ideal) : ideal :=
  match x with
  | Fin a => Fin (- a)
  | PInf => NInf
  | NInf => PInf
  | NaN => NaN
  end.

Definition xsub (x y : ideal) : ideal := xadd x (xneg y).

Definition xmul (x y : ideal) : ideal :=
  match x, y with
  | Fin a, Fin b => Fin (a * b)
  | NaN, _ | _, NaN => NaN
  | PInf, Fin b | Fin b, PInf => scale_inf true b
  | NInf, Fin b | Fin b, NInf => scale_inf false b
  | PInf, PInf | NInf, NInf => PInf
  | PInf, NInf | NInf, PInf => NInf
  end.

(** Division; a zero divisor is read as +0. *)
Definition xdiv (x y : ideal) : ideal :=
  match x, y with
  | Fin a, Fin b => if req b 0 then scale_inf true a else Fin (a / b)
  | NaN, _ | _, NaN => NaN
  | Fin _, PInf | Fin _, NInf => Fin 0
  | PInf, Fin b => if rlt b 0 then NInf else PInf
  | NInf, Fin b => if rlt b 0 then PInf else NInf
  | _, _ => NaN
  end.

Definition xsqrt (x : ideal) : ideal :=
  match x with
  | Fin a => if rlt a 0 then NaN else Fin (sqrt a)
  | PInf => PInf
  | _ => NaN
  end.

Definition xfabs (x : ideal) : ideal :=
  match x with
  | Fin a => Fin (Rabs a)
  | PInf | NInf => PInf
  | NaN => NaN
  end.

Definition xltb (x y : ideal) : bool :=
  match x, y with
  | Fin a, Fin b => rlt a b
  | NaN, _ | _, NaN => false
  | NInf, NInf | PInf, _ => false
  | NInf, _ => true
  | Fin _, PInf => true
  | Fin _, NInf => false
  end.

Definition xleb (x y : ideal) : bool :=
  match x, y with
  | Fin a, Fin b => rle a b
  | NaN, _ | _, NaN => false
  | NInf, _ | _, PInf => true
  | PInf, _ | Fin _, NInf => false
  end.

Definition xeqb (x y : ideal) : bool :=
  match x, y with
  | Fin a, Fin b => req a b
  | PInf, PInf | NInf, NInf => true
  | _, _ => false
  end.

#[export] Instance ideal_arith : Arith ideal := {|
  of_Z := fun z => Fin (IZR z);
  dadd := xadd;
  dsub := xsub;
  dmul := xmul;
  ddiv := xdiv;
  dneg := xneg;
  dsqrt := xsqrt;
  dfabs := xfabs;
  dltb := xltb;
  dleb := xleb;
  deqb := xeqb
|}.

(** The largest integer not above [r], and [r] rounded toward zero. *)
Definition Zfloor (r : R) : Z := Int_part r.
Definition Ztrunc (r : R) : Z :=
  if rle 0 r then Int_part r else (- Int_part (- r))%Z.

Definition INT_MIN : Z := (- 2 ^ 31)%Z.
Definition INT_MAX : Z := (2 ^ 31 - 1)%Z.

(** The conversion of a [double] to [int] truncates toward zero.  C++ leaves
    the result undefined when the truncated value does not fit (and for NaN
    and the infinities); the model then yields [INT_MIN], as the conversion
    instructions of the usual targets do. *)
Definition xint (x : ideal) : Z :=
  match x with
  | Fin r =>
      let t := Ztrunc r in
      if (INT_MIN <=? t)%Z && (t <=? INT_MAX)%Z then t else INT_MIN
  | _ => INT_MIN
  end.

Definition xsin (x : ideal) : ideal :=
  match x with Fin a => Fin (sin a) | _ => NaN end.

Definition xcos (x : ideal) : ideal :=
  match x with Fin a => Fin (cos a) | _ => NaN end.

Definition xtan (x : ideal) : ideal :=
  match x with Fin a => xdiv (Fin (sin a)) (Fin (cos a)) | _ => NaN end.

Definition xasin (x : ideal) : ideal :=
  match x with
  | Fin a => if rle (-1) a && rle a 1 then Fin (asin a) else NaN
  | _ => NaN
  end.

Definition xacos (x : ideal) : ideal :=
  match x with
  | Fin a => if rle (-1) a && rle a 1 then Fin (acos a) else NaN
  | _ => NaN
  end.

Definition xatan (x : ideal) : ideal :=
  match x with
  | Fin a => Fin (atan a)
  | PInf => Fin (Rtrigo1.PI / 2)
  | NInf => Fin (- (Rtrigo1.PI / 2))
  | NaN => NaN
  end.

(** The angle of the point [(x, y)], in [-PI, PI]. *)
Definition Ratan2 (y x : R) : R :=
  if rlt 0 x then atan (y / x)
  else if rlt x 0 then
    if rle 0 y then atan (y / x) + Rtrigo1.PI else atan (y / x) - Rtrigo1.PI
  else if rlt 0 y then Rtrigo1.PI / 2
  else if rlt y 0 then - (Rtrigo1.PI / 2)
  else 0.

Definition xatan2 (y x : ideal) : ideal :=
  match y, x with
  | NaN, _ | _, NaN => NaN
  | Fin b, Fin a => Fin (Ratan2 b a)
  | Fin _, PInf => Fin 0
  | Fin b, NInf => if rle 0 b then Fin Rtrigo1.PI else Fin (- Rtrigo1.PI)
  | PInf, Fin _ => Fin (Rtrigo1.PI / 2)
  | NInf, Fin _ => Fin (- (Rtrigo1.PI / 2))
  | PInf, PInf => Fin (Rtrigo1.PI / 4)
  | PInf, NInf => Fin (3 * Rtrigo1.PI / 4)
  | NInf, PInf => Fin (- (Rtrigo1.PI / 4))
  | NInf, NInf => Fin (- (3 * Rtrigo1.PI / 4))
  end.

(** [fmod(x, y) = x - n * y] with [n] the quotient rounded toward zero. *)
Definition xfmod (x y : ideal) : ideal :=
  match x, y with
  | Fin a, Fin b => if req b 0 then NaN else Fin (a - IZR (Ztrunc (a / b)) * b)
  | Fin a, PInf | Fin a, NInf => Fin a
  | _, _ => NaN
  end.

Definition xfloor (x : ideal) : ideal :=
  match x with
  | Fin a => Fin (IZR (Zfloor a))
  | _ => x
  end.

Definition is_int (r : R) : bool := req (IZR (Int_part r)) r.

(** [pow], with the special cases of C99 (F.9.4.4) that an unsigned zero
    can tell apart. *)
Definition xpow (x y : ideal) : ideal :=
  match x, y with
  | _, NaN => if xeqb x (Fin 1) then Fin 1 else NaN
  | NaN, Fin e => if req e 0 then Fin 1 else NaN
  | Fin b, Fin e =>
      if req e 0 then Fin 1
      else if rlt 0 b then Fin (Rpower b e)
      else if req b 0 then (if rlt 0 e then Fin 0 else PInf)
      else if is_int e then Fin (powerRZ b (Int_part e))
      else NaN
  | PInf, Fin e => if req e 0 then Fin 1 else if rlt 0 e then PInf else Fin 0
  | NInf, Fin e =>
      if req e 0 then Fin 1
      else if rlt 0 e then
        (if is_int e && Z.odd (Int_part e) then NInf else PInf)
      else Fin 0
  | Fin b, PInf =>
      if rlt (Rabs b) 1 then Fin 0 else if req (Rabs b) 1 then Fin 1 else PInf
  | Fin b, NInf =>
      if rlt (Rabs b) 1 then PInf else if req (Rabs b) 1 then Fin 1 else Fin 0
  | PInf, PInf | NInf, PInf => PInf
  | PInf, NInf | NInf, NInf => Fin 0
  | NaN, PInf | NaN, NInf => NaN
  end.

#[export] Instance ideal_cmath : CMath ideal := {|
  dsin := xsin;
  dcos := xcos;
  dtan := xtan;
  dasin := xasin;
  dacos := xacos;
  datan := xatan;
  datan2 := xatan2;
  dfmod := xfmod;
  dpow := xpow;
  dfloor := xfloor;
  int_of_double := xint
|}.

(** ** The claims' vocabulary *)

(** Pass number [n] is the first whose loop test fails, and [v] holds its
    variables. *)
Definition first_exit {A B : Type} (body : A -> B) (cond : B -> bool)
    (next : B -> A) (n : nat) (a : A) (v : B) : Prop :=
  v = pass body next n a /\ cond v = false
  /\ forall m : nat, (m < n)%nat -> cond (pass body next m a) = true.


Section SpecWords.
Context {D : Type} {AD : Arith D} {MD : CMath D}.
Local Open Scope dbl_scope.

(** The spec's cosine-law distance,
    [R * acos(sin p1 * sin p2 + cos p1 * cos p2 * cos dl)]. *)
Definition cosine_law_distance (P1 P2 : CLatLon D) : D :=
  let phi1 := m_Latitude P1 * m_Deg2Rad in
  let phi2 := m_Latitude P2 * m_Deg2Rad in
  let dlambda := (m_Longitude P1 - m_Longitude P2) * m_Deg2Rad in
  m_Radius * dacos (dsin phi1 * dsin phi2 + dcos phi1 * dcos phi2 * dcos dlambda).

(** The spec's planar approximation,
    [R * sqrt(dphi^2 + (dl * cos p2)^2)]. *)
Definition planar_distance (P1 P2 : CLatLon D) : D :=
  let phi1 := m_Latitude P1 * m_Deg2Rad in
  let phi2 := m_Latitude P2 * m_Deg2Rad in
  let dphi := phi1 - phi2 in
  let dlambda := (m_Longitude P1 - m_Longitude P2) * m_Deg2Rad in
  m_Radius * dsqrt (dphi * dphi + (dlambda * dcos phi2) * (dlambda * dcos phi2)).

End SpecWords.

(** Membership in the table of zone letters. *)
Definition in_table (c : ascii) : bool :=
  match string_find m_strZoneLetters c with Some _ => true | None => false end.

(** Two points of the exact interpretation used in examples. *)
Definition P_liege : CLatLon ideal := mkLatLon (Fin 50) (Fin 5).
Definition P_origin : CLatLon ideal := mkLatLon (Fin 0) (Fin 0).

(** The Cartesian point on which [FromCartesian] does not return: 18 km
    from the polar axis, 25 m above the ellipsoid. *)
Definition C_polar : CCartesianCoord float :=
  mkCartesian (b64_of_Z 18000) (b64_of_Z 0) (b64_of_Z 6356752).

(** The two values of [dTmp] between which the loop alternates there; they
    are one unit in the last place apart (2^-44, above [EPSILON]). *)
Definition t_even : float := 0x1.63886f8f65e69p+8%float.
Definition t_odd : float := 0x1.63886f8f65e68p+8%float.

(** A point off the equator, and a second point on it. *)
Definition P_offtrack : CLatLon ideal := mkLatLon (Fin 1) (Fin (1 / 2)%R).
Definition P_east : CLatLon ideal := mkLatLon (Fin 0) (Fin 1).

(** A point of the southern hemisphere, on the central meridian of zone 31. *)
Definition P_south : CLatLon ideal := mkLatLon (Fin (-1)%R) (Fin 3%R).

(** The forward conversion [ToUTM] followed by the inverse [ConvertUTM]. *)
Definition UTM_roundtrip {D : Type} {AD : Arith D} {MD : CMath D}
    (P : CLatLon D) : bool * CLatLon D :=
  let u := ToUTM P in
  ConvertUTM P (utm_zone u) (utm_letter u) (utm_easting u) (utm_northing u).

(** A value that is zero or NaN: what subtracting a number from itself
    gives, and what such a value becomes under the operations. *)
Definition zero_or_nan (x : ideal) : Prop := x = NaN \/ x = Fin 0%R.

(** ** The vocabulary of the further properties *)

(** The test by which [ConvertUTM] takes a zone letter for a southern one:
    [(cZoneLetter - 'N') < 0], after [toupper]. *)
Definition south_letter (c : ascii) : bool :=
  (Z.of_nat (nat_of_ascii (toupper c)) - Z.of_nat (nat_of_ascii "N") <? 0)%Z.


(** A coordinate that is NaN or a number below [b] in magnitude. *)
Definition within (b : R) (x : ideal) : Prop :=
  match x with
  | Fin r => (Rabs r < b)%R
  | NaN => True
  | _ => False
  end.


(** * Properties *)

Unset Implicit Arguments.

(** ** Loops *)

Section DoWhile.
Variables A B : Type.
Variable body : A -> B.
Variable cond : B -> bool.
Variable next : B -> A.

Lemma pass_S (n : nat) (a : A) :
  pass body next (S n) a = pass body next n (next (body a)).
Proof. reflexivity. Qed.

Lemma do_while_continue (n : nat) (a : A) :
  cond (body a) = true ->
  do_while body cond next (S n) a = do_while body cond next n (next (body a)).
Proof. intros Hc. simpl. now rewrite Hc. Qed.

Lemma do_while_stop (n : nat) (a : A) :
  cond (body a) = false ->
  do_while body cond next (S n) a = Some (body a).
Proof. intros Hc. simpl. now rewrite Hc. Qed.

(** The loop returns exactly at the first pass whose test fails. *)
Lemma do_while_first_exit (fuel : nat) (a : A) (v : B) :
  do_while body cond next fuel a = Some v <->
  exists n : nat, (n < fuel)%nat /\ first_exit body cond next n a v.
Proof.
  revert a. induction fuel as [|fuel IH]; intros a.
  - split; [discriminate | intros (n & Hn & _); lia].
  - simpl. destruct (cond (body a)) eqn:Hc.
    + rewrite IH. split.
      * intros (n & Hn & Hv & Hf & Hb). exists (S n). split; [lia|].
        split; [exact Hv|]. split; [exact Hf|].
        intros [|m] Hm; [exact Hc | simpl; apply Hb; lia].
      * intros (n & Hn & Hv & Hf & Hb). destruct n as [|n].
        { simpl in Hv. subst v. congruence. }
        exists n. split; [lia|]. split; [exact Hv|]. split; [exact Hf|].
        intros m Hm. apply (Hb (S m)). lia.
    + split.
      * intros Hv. injection Hv as <-. exists O. split; [lia|].
        split; [reflexivity|]. split; [exact Hc|]. intros m Hm; lia.
      * intros (n & Hn & Hv & Hf & Hb). destruct n as [|n].
        { simpl in Hv. now subst v. }
        specialize (Hb O ltac:(lia)). simpl in Hb. congruence.
Qed.

(** While every test holds, the loop does not return. *)
Lemma do_while_running (fuel : nat) (a : A) :
  (forall m : nat, (m < fuel)%nat -> cond (pass body next m a) = true) ->
  do_while body cond next fuel a = None.
Proof.
  revert a. induction fuel as [|fuel IH]; intros a Hb; [reflexivity|].
  rewrite do_while_continue by (apply (Hb O); lia).
  apply IH. intros m Hm. apply (Hb (S m)). lia.
Qed.

End DoWhile.

(** ** The loop of [FromCartesian] in binary64 *)

Lemma C_polar_even :
  FromCartesian_body C_polar t_even = (t_even, t_odd).
Proof. vm_compute. reflexivity. Qed.

Lemma C_polar_odd :
  FromCartesian_body C_polar t_odd = (t_odd, t_even).
Proof. vm_compute. reflexivity. Qed.

Lemma C_polar_even_cond : FromCartesian_cond (t_even, t_odd) = true.
Proof. vm_compute. reflexivity. Qed.

Lemma C_polar_odd_cond : FromCartesian_cond (t_odd, t_even) = true.
Proof. vm_compute. reflexivity. Qed.

(** Once [dTmp] is one of the two values, the loop alternates for ever. *)
Lemma C_polar_cycle (fuel : nat) :
  do_while (FromCartesian_body C_polar) FromCartesian_cond snd fuel t_even = None
  /\ do_while (FromCartesian_body C_polar) FromCartesian_cond snd fuel t_odd = None.
Proof.
  induction fuel as [|fuel [IHe IHo]]; [split; reflexivity|].
  split.
  - rewrite do_while_continue; rewrite C_polar_even;
      [exact IHo | exact C_polar_even_cond].
  - rewrite do_while_continue; rewrite C_polar_odd;
      [exact IHe | exact C_polar_odd_cond].
Qed.

(** The first four passes lead into the cycle. *)
Lemma C_polar_prefix :
  let b := FromCartesian_body C_polar in
  let t1 := snd (b (FromCartesian_init C_polar)) in
  let t2 := snd (b t1) in
  let t3 := snd (b t2) in
  let t4 := snd (b t3) in
  FromCartesian_cond (b (FromCartesian_init C_polar)) = true
  /\ FromCartesian_cond (b t1) = true
  /\ FromCartesian_cond (b t2) = true
  /\ FromCartesian_cond (b t3) = true
  /\ t4 = t_even.
Proof. vm_compute. repeat split; reflexivity. Qed.

Lemma FromCartesian_loop_C_polar (fuel : nat) :
  FromCartesian_loop fuel C_polar = None.
Proof.
  unfold FromCartesian_loop.
  destruct C_polar_prefix as (H0 & H1 & H2 & H3 & H4).
  destruct fuel as [|fuel]; [reflexivity|].
  rewrite do_while_continue by exact H0.
  destruct fuel as [|fuel]; [reflexivity|].
  rewrite do_while_continue by exact H1.
  destruct fuel as [|fuel]; [reflexivity|].
  rewrite do_while_continue by exact H2.
  destruct fuel as [|fuel]; [reflexivity|].
  rewrite do_while_continue by exact H3.
  rewrite H4. apply C_polar_cycle.
Qed.

(** C2, counterexample: in binary64 the loop of [FromCartesian] never ends
    on the point (18000, 0, 6356752); no number of passes is enough, so no
    cap bounds the iteration and nothing is reported. *)
Lemma FromCartesian_has_no_iteration_cap :
  ~ exists cap : nat, FromCartesian_loop cap C_polar <> None.
Proof.
  intros [cap Hcap]. apply Hcap. apply FromCartesian_loop_C_polar.
Qed.

(** C2, as amended: none of the three solvers counts its passes.  Under
    every interpretation of the arithmetic, each loop returns exactly at the
    first pass whose test [change > EPSILON] fails, with the variables of
    that pass, however many passes that takes. *)
Theorem solvers_return_at_first_converged_pass :
  forall (D : Type) (AD : Arith D) (MD : CMath D),
    (forall (fuel : nat) (C : CCartesianCoord D) (v : D * D),
        FromCartesian_loop fuel C = Some v <->
        exists n : nat, (n < fuel)%nat /\
          first_exit (FromCartesian_body C) FromCartesian_cond snd n
                     (FromCartesian_init C) v)
    /\ (forall (flat omega sinu1 cosu1 sinu2 cosu2 lambda : D) (fuel : nat)
               (v : VDPass),
        VincentyDistance_loop flat omega sinu1 cosu1 sinu2 cosu2 fuel lambda = Some v <->
        exists n : nat, (n < fuel)%nat /\
          first_exit (VincentyDistance_body flat omega sinu1 cosu1 sinu2 cosu2)
                     VincentyDistance_cond (@vd_lambda D) n lambda v)
    /\ (forall (s b0 a b sigma1 sigma : D) (fuel : nat) (v : D * D),
        VincentyProjection_loop s b0 a b sigma1 fuel sigma = Some v <->
        exists n : nat, (n < fuel)%nat /\
          first_exit (VincentyProjection_body s b0 a b sigma1)
                     VincentyProjection_cond snd n sigma v).
Proof.
  intros D AD MD. repeat split; intros; try (apply do_while_first_exit; assumption);
    try (now apply do_while_first_exit).
Qed.

(** ** Comparisons of real numbers *)

Lemma rlt_true (x y : R) : (x < y)%R -> rlt x y = true.
Proof. intros H. unfold rlt. destruct (Rlt_dec x y); [reflexivity | contradiction]. Qed.

Lemma rlt_false (x y : R) : (y <= x)%R -> rlt x y = false.
Proof. intros H. unfold rlt. destruct (Rlt_dec x y); [lra | reflexivity]. Qed.

Lemma rle_true (x y : R) : (x <= y)%R -> rle x y = true.
Proof. intros H. unfold rle. destruct (Rle_dec x y); [reflexivity | contradiction]. Qed.

Lemma rle_false (x y : R) : (y < x)%R -> rle x y = false.
Proof. intros H. unfold rle. destruct (Rle_dec x y); [lra | reflexivity]. Qed.

Lemma req_true (x y : R) : x = y -> req x y = true.
Proof. intros H. unfold req. destruct (Req_dec_T x y); [reflexivity | contradiction]. Qed.

Lemma req_false (x y : R) : x <> y -> req x y = false.
Proof. intros H. unfold req. destruct (Req_dec_T x y); [contradiction | reflexivity]. Qed.

Lemma req_refl (x : R) : req x x = true.
Proof. now apply req_true. Qed.

(** ** Vincenty's inverse solver on identical points *)

(** C3: for a point whose coordinates are numbers (they compare equal to
    themselves; only NaN does not), [VincentyDistance] applied to the point
    and itself returns distance 0 and both azimuths 0 whatever the number of
    passes allowed, none included: the loop is not entered. *)
Theorem VincentyDistance_same_point :
  forall (D : Type) (AD : Arith D) (MD : CMath D) (P : CLatLon D) (fuel : nat),
    (m_Latitude P =? m_Latitude P)%D = true ->
    (m_Longitude P =? m_Longitude P)%D = true ->
    VincentyDistance fuel P P = Some (mkVincenty #0 #0 #0)%D.
Proof.
  intros D AD MD P fuel Hlat Hlon. unfold VincentyDistance.
  now rewrite Hlat, Hlon.
Qed.

Lemma VincentyDistance_same_point_witness :
  VincentyDistance 0 P_liege P_liege = Some (mkVincenty (Fin 0) (Fin 0) (Fin 0)).
Proof.
  apply (@VincentyDistance_same_point ideal ideal_arith ideal_cmath P_liege 0);
    apply req_refl.
Defined.

(** ** The small-distance branch of [SphericalDistance] *)

(** C7: [SphericalDistance] returns the planar approximation when the
    cosine-law distance compares below 0.01, and the cosine-law distance
    otherwise. *)
Theorem SphericalDistance_branches :
  forall (D : Type) (AD : Arith D) (MD : CMath D) (P1 P2 : CLatLon D),
    SphericalDistance P1 P2 =
    if (cosine_law_distance P1 P2 <? dec 1 2)%D then planar_distance P1 P2
    else cosine_law_distance P1 P2.
Proof. intros. reflexivity. Qed.

(** ** The zone letter of [ConvertUTM] *)

Lemma ConvertUTM_fst :
  forall (D : Type) (AD : Arith D) (MD : CMath D) (this : CLatLon D)
         (iZone : Z) (c : ascii) (dEasting dNorthing : D),
    fst (ConvertUTM this iZone c dEasting dNorthing) = in_table (toupper c).
Proof.
  intros. unfold ConvertUTM, in_table.
  destruct (string_find m_strZoneLetters (toupper c)); reflexivity.
Qed.

Lemma toupper_in_table (c : ascii) :
  in_table c = true -> toupper c = c.
Proof.
  destruct c as [[] [] [] [] [] [] [] []]; vm_compute; intros H;
    first [reflexivity | discriminate H].
Qed.

(** C6, counterexample: the lower-case letter [c] is not one of the twenty
    characters of the table, and [ConvertUTM] returns true for it. *)
Lemma ConvertUTM_accepts_lower_case :
  in_table "c" = false
  /\ fst (ConvertUTM P_origin 31 "c" (Fin 500000) (Fin 0)) = true.
Proof. split; [reflexivity | now rewrite ConvertUTM_fst]. Qed.

(** C6, as amended: [ConvertUTM] folds the letter to upper case first.  It
    returns false exactly when the upper-cased letter is not in the table;
    in particular it returns true for every letter of the table. *)
Theorem ConvertUTM_letter_check :
  forall (D : Type) (AD : Arith D) (MD : CMath D) (this : CLatLon D)
         (iZone : Z) (c : ascii) (dEasting dNorthing : D),
    (fst (ConvertUTM this iZone c dEasting dNorthing) = false <->
     in_table (toupper c) = false)
    /\ (in_table c = true ->
        fst (ConvertUTM this iZone c dEasting dNorthing) = true).
Proof.
  intros. rewrite ConvertUTM_fst. split; [reflexivity|].
  intros H. now rewrite (toupper_in_table _ H).
Qed.

(** C9: when [ConvertUTM] returns false, the point is left as it was. *)
Theorem ConvertUTM_failure_keeps_point :
  forall (D : Type) (AD : Arith D) (MD : CMath D) (this : CLatLon D)
         (iZone : Z) (c : ascii) (dEasting dNorthing : D),
    fst (ConvertUTM this iZone c dEasting dNorthing) = false ->
    snd (ConvertUTM this iZone c dEasting dNorthing) = this.
Proof.
  intros D AD MD this iZone c dEasting dNorthing. unfold ConvertUTM.
  destruct (string_find m_strZoneLetters (toupper c)); cbn [fst snd];
    [discriminate | reflexivity].
Qed.

Lemma ConvertUTM_failure_keeps_point_witness :
  fst (ConvertUTM P_liege 31 "A" (Fin 500000) (Fin 0)) = false
  /\ snd (ConvertUTM P_liege 31 "A" (Fin 500000) (Fin 0)) = P_liege.
Proof.
  split; [reflexivity|].
  apply (@ConvertUTM_failure_keeps_point ideal ideal_arith ideal_cmath).
  reflexivity.
Defined.

(** ** The zone letter outside the latitude bands *)

Local Open Scope R_scope.

Lemma Int_part_ge (x : R) (z : Z) : IZR z <= x -> (z <= Int_part x)%Z.
Proof.
  intros H. destruct (base_Int_part x) as [_ H2].
  assert (H0 : IZR z < IZR (Int_part x) + 1) by lra.
  rewrite <- plus_IZR in H0. apply lt_IZR in H0. lia.
Qed.

Lemma Int_part_le (x : R) (z : Z) : x < IZR z + 1 -> (Int_part x <= z)%Z.
Proof.
  intros H. destruct (base_Int_part x) as [H1 _].
  assert (H0 : IZR (Int_part x) < IZR z + 1) by lra.
  rewrite <- plus_IZR in H0. apply lt_IZR in H0. lia.
Qed.

Lemma GetZoneLetter_of_index (this : CLatLon ideal) (i : Z) :
  ((m_Latitude this >=? #72) && (m_Latitude this <=? #84))%D = false ->
  int_of_double (dfloor (m_Latitude this + #80)%D / #8)%D = i ->
  (i < 0 \/ 20 <= i < 2 ^ 32)%Z ->
  GetZoneLetter this = "Z"%char.
Proof.
  intros Hx Hi Hr. unfold GetZoneLetter. rewrite Hx, Hi.
  destruct Hr as [Hr|Hr].
  - replace (0 <=? i)%Z with false by (symmetry; apply Z.leb_gt; lia). reflexivity.
  - unfold to_size_t. rewrite Z.mod_small by lia.
    replace (i <? _)%Z with false; [now rewrite andb_false_r|].
    symmetry. apply Z.ltb_ge. simpl. lia.
Qed.

Lemma xint_fin (r : R) (t : Z) :
  Ztrunc r = t -> xint (Fin r) = if (INT_MIN <=? t)%Z && (t <=? INT_MAX)%Z then t else INT_MIN.
Proof. intros <-. reflexivity. Qed.

Lemma Ztrunc_ge (x : R) (z : Z) : (0 <= z)%Z -> IZR z <= x -> (z <= Ztrunc x)%Z.
Proof.
  intros Hz H. unfold Ztrunc. rewrite rle_true.
  - now apply Int_part_ge.
  - apply IZR_le in Hz. lra.
Qed.

Lemma Ztrunc_le_neg (x : R) (z : Z) : (z <= 0)%Z -> x <= IZR z -> (Ztrunc x <= z)%Z.
Proof.
  intros Hz H. unfold Ztrunc. apply IZR_le in Hz.
  destruct (Rle_dec 0 x) as [Hx|Hx].
  - rewrite rle_true by exact Hx. assert (x = 0) by lra. subst x.
    assert (IZR z = 0) by lra. apply eq_IZR in H0. subst z.
    apply Int_part_le. lra.
  - rewrite rle_false by lra.
    assert (- z <= Int_part (- x))%Z; [|lia].
    apply Int_part_ge. rewrite opp_IZR. lra.
Qed.

Lemma xint_range (x : ideal) : (INT_MIN <= xint x <= INT_MAX)%Z.
Proof.
  destruct x; simpl; try (unfold INT_MIN, INT_MAX; lia).
  destruct (_ && _) eqn:E; [|unfold INT_MIN, INT_MAX; lia].
  apply andb_true_iff in E. destruct E as [E1 E2].
  apply Z.leb_le in E1, E2. lia.
Qed.

Lemma xint_ge (r : R) (z : Z) :
  (0 <= z)%Z -> IZR z <= r -> (xint (Fin r) < 0 \/ z <= xint (Fin r))%Z.
Proof.
  intros Hz H. simpl. destruct (_ && _); [right; now apply Ztrunc_ge | left; unfold INT_MIN; lia].
Qed.

Lemma xint_le_neg (r : R) (z : Z) :
  (z < 0)%Z -> r <= IZR z -> (xint (Fin r) < 0)%Z.
Proof.
  intros Hz H. simpl. destruct (_ && _); [|unfold INT_MIN; lia].
  assert (Ztrunc r <= z)%Z by (apply Ztrunc_le_neg; [lia|exact H]). lia.
Qed.

(** C10: for every latitude above 84 and every latitude below -88 (the
    infinities included), [GetZoneLetter] returns ['Z'], which is not in the
    table of zone letters, so that [ConvertUTM] rejects it. *)
Theorem GetZoneLetter_sentinel :
  forall this : CLatLon ideal,
    (m_Latitude this >? #84)%D = true \/ (m_Latitude this <? #(-88))%D = true ->
    GetZoneLetter this = "Z"%char
    /\ in_table "Z" = false
    /\ forall (p : CLatLon ideal) (iZone : Z) (dEasting dNorthing : ideal),
         ConvertUTM p iZone (GetZoneLetter this) dEasting dNorthing = (false, p).
Proof.
  intros this H.
  assert (HZ : GetZoneLetter this = "Z"%char).
  { destruct this as [lat lon]. simpl in H.
    destruct lat as [r| | |]; simpl in H.
    - assert (Hr : 84 < r \/ r < -88).
      { destruct H as [H|H]; unfold rlt in H;
          destruct (Rlt_dec _ _) as [Hlt|]; try discriminate; [left|right]; exact Hlt. }
      clear H.
      assert (Hden : req 8 0 = false) by (apply req_false; lra).
      apply GetZoneLetter_of_index with
        (i := xint (Fin (IZR (Zfloor (r + 80)) / 8))).
      + simpl. destruct Hr as [Hr|Hr].
        * rewrite (rle_false r 84) by lra. apply andb_false_r.
        * rewrite (rle_false 72 r) by lra. reflexivity.
      + simpl. rewrite Hden. reflexivity.
      + pose proof (xint_range (Fin (IZR (Zfloor (r + 80)) / 8))) as Hrange.
        unfold INT_MIN, INT_MAX in Hrange.
        destruct Hr as [Hr|Hr].
        * assert (Hf : (164 <= Zfloor (r + 80))%Z) by (apply Int_part_ge; lra).
          apply IZR_le in Hf.
          destruct (xint_ge (IZR (Zfloor (r + 80)) / 8) 20) as [Hn|Hp];
            [lia | lra | left; exact Hn | right; lia].
        * assert (Hf : (Zfloor (r + 80) <= -9)%Z) by (apply Int_part_le; lra).
          apply IZR_le in Hf. left.
          apply (xint_le_neg _ (-1)%Z); [lia | lra].
    - apply (GetZoneLetter_of_index _ INT_MIN); [reflexivity | | left; reflexivity].
      simpl. now rewrite (rlt_false 8 0) by lra.
    - apply (GetZoneLetter_of_index _ INT_MIN); [reflexivity | | left; reflexivity].
      simpl. now rewrite (rlt_false 8 0) by lra.
    - destruct H; discriminate. }
  split; [exact HZ|]. split; [reflexivity|].
  intros p iZone dEasting dNorthing. rewrite HZ. reflexivity.
Qed.

Lemma GetZoneLetter_sentinel_witness :
  GetZoneLetter (mkLatLon (Fin 85) (Fin 5)) = "Z"%char
    /\ in_table "Z" = false
    /\ forall (p : CLatLon ideal) (iZone : Z) (dEasting dNorthing : ideal),
         ConvertUTM p iZone (GetZoneLetter (mkLatLon (Fin 85) (Fin 5))) dEasting dNorthing = (false, p).
Proof.
  apply GetZoneLetter_sentinel. left. simpl. apply rlt_true. lra.
Defined.


(** ** Exact arithmetic: zeros and NaN *)

Lemma dec_ideal (m : Z) (k : nat) :
  dec m k = Fin (IZR m / IZR (10 ^ Z.of_nat k)).
Proof.
  unfold dec. simpl. rewrite req_false; [reflexivity|].
  apply not_0_IZR. apply Z.pow_nonzero; lia.
Qed.


Lemma xadd_nan_r (x : ideal) : xadd x NaN = NaN.
Proof. now destruct x. Qed.

Lemma xmul_nan_r (x : ideal) : xmul x NaN = NaN.
Proof. now destruct x. Qed.

Lemma xdiv_nan_r (x : ideal) : xdiv x NaN = NaN.
Proof. now destruct x. Qed.

Lemma scale_inf_0 (pos : bool) : scale_inf pos 0 = NaN.
Proof. unfold scale_inf. now rewrite !rlt_false by lra. Qed.

Lemma zn_sub_diag (x : ideal) : zero_or_nan (xsub x x).
Proof.
  destruct x; simpl; [right | left | left | left]; try reflexivity.
  f_equal. ring.
Qed.

Lemma zn_mul_l (x y : ideal) : zero_or_nan x -> zero_or_nan (xmul x y).
Proof.
  intros [-> | ->]; [now left|].
  destruct y; simpl; rewrite ?scale_inf_0; [right | left | left | left];
    try reflexivity.
  f_equal. ring.
Qed.

Lemma zn_mul_r (x y : ideal) : zero_or_nan y -> zero_or_nan (xmul x y).
Proof.
  intros [-> | ->]; [left; apply xmul_nan_r|].
  destruct x; simpl; rewrite ?scale_inf_0; [right | left | left | left];
    try reflexivity.
  f_equal. ring.
Qed.

Lemma zn_add (x y : ideal) : zero_or_nan x -> zero_or_nan y -> zero_or_nan (xadd x y).
Proof.
  intros [-> | ->] [-> | ->]; simpl; [left | left | left | right]; try reflexivity.
  f_equal. ring.
Qed.

Lemma zn_neg (x : ideal) : zero_or_nan x -> zero_or_nan (xneg x).
Proof.
  intros [-> | ->]; simpl; [now left | right]. f_equal. ring.
Qed.

Lemma zn_sub (x y : ideal) : zero_or_nan x -> zero_or_nan y -> zero_or_nan (xsub x y).
Proof. intros Hx Hy. apply zn_add; [exact Hx | now apply zn_neg]. Qed.

Lemma zn_div_num (x : ideal) (r : R) : r <> 0 -> zero_or_nan x -> zero_or_nan (xdiv x (Fin r)).
Proof.
  intros Hr [-> | ->]; simpl; [now left|].
  rewrite req_false by exact Hr. right. f_equal. field. exact Hr.
Qed.

Lemma zn_sin (x : ideal) : zero_or_nan x -> zero_or_nan (xsin x).
Proof.
  intros [-> | ->]; simpl; [now left | right]. now rewrite sin_0.
Qed.

Lemma zn_sqrt (x : ideal) : zero_or_nan x -> zero_or_nan (xsqrt x).
Proof.
  intros [-> | ->]; simpl; [now left | right].
  rewrite rlt_false by lra. now rewrite sqrt_0.
Qed.

(** Zero divided by zero, and everything else of that kind, is NaN. *)
Lemma zn_div (x y : ideal) : zero_or_nan x -> zero_or_nan y -> xdiv x y = NaN.
Proof.
  intros [-> | ->] [-> | ->]; simpl; try reflexivity.
  rewrite req_true by reflexivity. apply scale_inf_0.
Qed.

Lemma xdiv_by_zn (x y : ideal) : x = NaN -> xdiv x y = NaN.
Proof. intros ->. reflexivity. Qed.

(** ** Coincident reference points *)

Lemma IsBetween_u_coincident (P P1 : CLatLon ideal) :
  IsBetween_u P P1 P1 = NaN.
Proof.
  unfold IsBetween_u. cbn [dadd dsub dmul ddiv ideal_arith].
  apply zn_div.
  - apply zn_add.
    + apply zn_mul_l, zn_mul_l, zn_mul_r, zn_sub_diag.
    + apply zn_mul_r, zn_sub_diag.
  - apply zn_add.
    + apply zn_mul_l, zn_mul_l, zn_mul_r, zn_sub_diag.
    + apply zn_mul_r, zn_sub_diag.
Qed.

Lemma IsBetween_coincident (P P1 : CLatLon ideal) :
  IsBetween P P1 P1 = false.
Proof. unfold IsBetween. now rewrite IsBetween_u_coincident. Qed.

Lemma SphericalCross_coincident (P1 : CLatLon ideal) :
  zero_or_nan (m_x (SphericalCross P1 P1))
  /\ zero_or_nan (m_y (SphericalCross P1 P1))
  /\ zero_or_nan (m_z (SphericalCross P1 P1)).
Proof.
  unfold SphericalCross.
  cbn [m_x m_y m_z dadd dsub dmul ddiv dsin dcos of_Z ideal_arith ideal_cmath].
  set (dLat1 := xmul (m_Latitude P1) m_Deg2Rad).
  set (dLong1 := xmul (m_Longitude P1) m_Deg2Rad).
  assert (Hlat : zero_or_nan (xsin (xsub dLat1 dLat1)))
    by apply zn_sin, zn_sub_diag.
  assert (Hlong : zero_or_nan (xdiv (xsub dLong1 dLong1) (Fin 2)))
    by (apply zn_div_num; [lra | apply zn_sub_diag]).
  repeat split.
  - apply zn_sub.
    + apply zn_mul_r, zn_sin, Hlong.
    + apply zn_mul_l, zn_mul_l, Hlat.
  - apply zn_add.
    + apply zn_mul_l, zn_mul_l, Hlat.
    + apply zn_mul_r, zn_sin, Hlong.
  - apply zn_mul_r, zn_sin, zn_mul_r, Hlong.
Qed.

Lemma SphericalDistance2_coincident (P P1 : CLatLon ideal) :
  SphericalDistance2 P P1 P1 = NaN.
Proof.
  unfold SphericalDistance2, Normalize, dot.
  destruct (SphericalCross_coincident P1) as (Hx & Hy & Hz).
  cbn [m_x m_y m_z dadd dsub dmul ddiv dsqrt dfabs dacos ideal_arith ideal_cmath].
  set (C := SphericalCross P1 P1) in *.
  assert (Hr : zero_or_nan (xsqrt (xadd (xadd (xmul (m_x C) (m_x C))
                                              (xmul (m_y C) (m_y C)))
                                        (xmul (m_z C) (m_z C))))).
  { apply zn_sqrt, zn_add; [apply zn_add|]; now apply zn_mul_l. }
  rewrite !(zn_div _ _ Hx Hr), !(zn_div _ _ Hy Hr), !(zn_div _ _ Hz Hr).
  simpl. unfold xsub. simpl. rewrite xadd_nan_r, xmul_nan_r. simpl.
  apply xmul_nan_r.
Qed.

(** C5, counterexample: with the two reference points equal, [IsBetween]
    divides zero by zero and answers false like for any point outside the
    span, and the cross-track [SphericalDistance] returns NaN; nothing is
    detected or reported. *)
Lemma coincident_reference_points_give_NaN :
  IsBetween_u P_liege P_origin P_origin = NaN
  /\ IsBetween P_liege P_origin P_origin = false
  /\ SphericalDistance2 P_liege P_origin P_origin = NaN.
Proof.
  split; [apply IsBetween_u_coincident|].
  split; [apply IsBetween_coincident | apply SphericalDistance2_coincident].
Qed.

(** C5, as amended: the code has no check for a zero-length reference
    segment.  For every point and every pair of equal reference points (in
    exact arithmetic, special values included) the relative position is
    0/0 = NaN, [IsBetween] returns false, and the cross-track
    [SphericalDistance] returns NaN. *)
Theorem coincident_reference_points_undetected :
  forall P P1 : CLatLon ideal,
    IsBetween_u P P1 P1 = NaN
    /\ IsBetween P P1 P1 = false
    /\ SphericalDistance2 P P1 P1 = NaN.
Proof.
  intros P P1.
  split; [apply IsBetween_u_coincident|].
  split; [apply IsBetween_coincident | apply SphericalDistance2_coincident].
Qed.

(** ** Evaluation in exact arithmetic *)

(** Unfolding of the operations of the exact interpretation. *)
Ltac ideal_cbn :=
  cbn [of_Z dadd dsub dmul ddiv dneg dsqrt dfabs dltb dleb deqb
       dsin dcos dtan dasin dacos datan datan2 dfmod dpow dfloor int_of_double
       ideal_arith ideal_cmath
       xadd xsub xmul xdiv xneg xsqrt xfabs xltb xleb xeqb
       xsin xcos xtan xasin xacos xatan xatan2 xfmod xfloor xpow
       m_a m_fInv m_x m_y m_z m_Latitude m_Longitude m_Ellipsoid
       fst snd andb orb negb].

Ltac resolve_test tac :=
  match goal with
  | |- context [req ?a ?b] =>
      first [ rewrite (req_false a b) by tac
            | rewrite (req_true a b) by tac ]
  | |- context [rlt ?a ?b] =>
      first [ rewrite (rlt_true a b) by tac
            | rewrite (rlt_false a b) by tac ]
  | |- context [rle ?a ?b] =>
      first [ rewrite (rle_true a b) by tac
            | rewrite (rle_false a b) by tac ]
  end.

Ltac pow10 :=
  repeat match goal with
  | |- context [(10 ^ Z.of_nat ?k)%Z] =>
      let z := eval vm_compute in (10 ^ Z.of_nat k)%Z in
      change (10 ^ Z.of_nat k)%Z with z
  end.

Ltac eval_fin tac :=
  cbv delta [m_Deg2Rad m_Radius PI EPSILON];
  ideal_cbn; rewrite ?dec_ideal; pow10; ideal_cbn; repeat (resolve_test tac; ideal_cbn).

(* In [H : r = let x := X in F x]: evaluate [X] to a number, introduce a
   real variable [a] for it, and continue in the body. *)
Ltac step_let H a Ha tac :=
  lazymatch type of H with
  | ?r = (let x := ?X in @?F x) =>
      let v := fresh "v" in
      pose (v := X); change (r = F v) in H; cbv beta in H;
      let Hv := fresh "Hv" in
      eassert (Hv : v = Fin _) by (subst v; eval_fin tac; reflexivity);
      match type of Hv with _ = Fin ?e =>
        pose (a := e); assert (Ha : a = e) by reflexivity;
        change (v = Fin a) in Hv; clearbody a; clearbody v; subst v
      end
  end.

(* substitute the outermost let of [H] *)
Ltac zeta_let H :=
  lazymatch type of H with
  | ?r = (let x := ?X in @?F x) => change (r = F X) in H; cbv beta in H
  end.


(** ** The longitude of projected and converted points *)

Lemma PI_upper : Rtrigo1.PI < 3141592653589794 / 10^15.
Proof.
  pose proof (PI_2_3_7_ineq 8) as [_ H].
  unfold sum_f_R0, tg_alt, PI_2_3_7_tg, Ratan_seq in H.
  simpl in H.
  lra.
Qed.


Lemma Ztrunc_unit (x : R) : 0 <= x < 1 -> Ztrunc x = 0%Z.
Proof.
  intros [H0 H1]. unfold Ztrunc. rewrite rle_true by exact H0.
  assert (0 <= Int_part x)%Z by (apply Int_part_ge; simpl; lra).
  assert (Int_part x <= 0)%Z by (apply Int_part_le; simpl; lra).
  lia.
Qed.


Lemma m_Deg2Rad_ideal : @m_Deg2Rad ideal _ = Fin (174532925199433 / 10000000000000000).
Proof. apply dec_ideal. Qed.

Lemma m_Radius_ideal : @m_Radius ideal _ = Fin (636670701896486 / 100000000).
Proof. apply dec_ideal. Qed.



Lemma Rdiv_bounds (n d lo hi : R) :
  0 < d -> lo * d < n < hi * d -> lo < n / d < hi.
Proof.
  intros Hd [H1 H2]. split.
  - apply Rmult_lt_reg_r with d; [exact Hd|].
    unfold Rdiv. rewrite Rmult_assoc, Rinv_l by lra. lra.
  - apply Rmult_lt_reg_r with d; [exact Hd|].
    unfold Rdiv. rewrite Rmult_assoc, Rinv_l by lra. lra.
Qed.




(** ** The cross-track distance away from the great circle *)

Lemma sin_lower (x : R) : 0 <= x <= 1 -> x - x * x * x / 6 <= sin x.
Proof.
  intros [H0 H1].
  assert (Hpi : x <= Rtrigo1.PI) by (pose proof PI2_1; lra).
  destruct (SIN x H0 Hpi) as [Hlb _].
  unfold sin_lb, sin_approx, sum_f_R0, sin_term in Hlb. simpl in Hlb.
  assert (H2 : 0 <= x * x <= 1) by nra.
  assert (H5 : 0 <= x * x * x * x * x).
  { replace (x * x * x * x * x) with (x * ((x * x) * (x * x))) by ring.
    apply Rmult_le_pos; [lra|]. apply Rmult_le_pos; lra. }
  assert (H7 : x * x * x * x * x * x * x <= x * x * x * x * x).
  { replace (x * x * x * x * x * x * x) with ((x * x * x * x * x) * (x * x)) by ring.
    rewrite <- (Rmult_1_r (x * x * x * x * x)) at 2.
    apply Rmult_le_compat_l; lra. }
  lra.
Qed.

Lemma cos_small_pos (x : R) : -1 <= x <= 1 -> 0 < cos x.
Proof.
  intros H. pose proof PI2_1. apply cos_gt_0; lra.
Qed.

Ltac dconst := rewrite ?m_Deg2Rad_ideal, ?m_Radius_ideal.

Lemma IsBetween_offtrack : IsBetween P_offtrack P_origin P_east = true.
Proof.
  unfold IsBetween, IsBetween_u, P_offtrack, P_origin, P_east. dconst.
  set (D := 174532925199433 / 10000000000000000).
  ideal_cbn.
  assert (Hc : 0 < cos (1 * D)) by (apply cos_small_pos; unfold D; lra).
  set (c := cos (1 * D)) in *.
  assert (Hcc : 0 < c * c) by nra.
  rewrite req_false by nra.
  ideal_cbn.
  match goal with |- context [rle 0 ?u] =>
    replace u with (1 / 2) by (field; lra) end.
  rewrite rle_true, rlt_true by lra. reflexivity.
Qed.

Lemma SphericalCross_origin_east :
  SphericalCross P_origin P_east =
  mkCartesian (Fin 0) (Fin 0) (Fin (sin (174532925199433 / 10000000000000000))).
Proof.
  unfold SphericalCross, P_origin, P_east. dconst.
  set (D := 174532925199433 / 10000000000000000).
  ideal_cbn. rewrite (req_false 2 0) by lra. ideal_cbn.
  replace (0 * D + 0 * D) with 0 by ring.
  replace (0 * D + - (0 * D)) with 0 by ring.
  replace (0 * D) with 0 by ring.
  replace (-2 * ((0 + - (1 * D)) / 2)) with D by field.
  rewrite sin_0, cos_0.
  f_equal; f_equal; ring.
Qed.

Lemma Normalize_origin_east :
  Normalize (SphericalCross P_origin P_east) = mkCartesian (Fin 0) (Fin 0) (Fin 1).
Proof.
  rewrite SphericalCross_origin_east. unfold Normalize.
  set (D := 174532925199433 / 10000000000000000).
  assert (Hs : 0 < sin D).
  { pose proof (sin_lower D) as H. unfold D in *. nra. }
  ideal_cbn.
  replace (0 * 0 + 0 * 0 + sin D * sin D) with (Rsqr (sin D)) by (unfold Rsqr; ring).
  rewrite rlt_false by apply Rle_0_sqr.
  ideal_cbn. rewrite sqrt_Rsqr by lra.
  rewrite req_false by lra.
  f_equal; f_equal; field; lra.
Qed.

(** C8, the failing input: the point (1, 0.5) lies within the span of the
    reference points (0, 0) and (0, 1), about 111 km from their great
    circle.  [IsBetween] holds, and the cross-track [SphericalDistance] is
    NaN instead of that distance: the dot product of the unit normal with
    the position vector, which is not normalised (about 111114), is outside
    the domain of [acos]. *)
Lemma SphericalDistance2_offtrack :
  IsBetween P_offtrack P_origin P_east = true
  /\ SphericalDistance2 P_offtrack P_origin P_east = NaN.
Proof.
  split; [exact IsBetween_offtrack|].
  unfold SphericalDistance2. rewrite IsBetween_offtrack, Normalize_origin_east.
  unfold ToSphericalCartesian, dot, P_offtrack. dconst.
  unfold PI. rewrite dec_ideal. pow10.
  set (D := 174532925199433 / 10000000000000000).
  ideal_cbn.
  assert (Hs : 1 < 636670701896486 / 100000000 * sin (1 * D)).
  { pose proof (sin_lower (1 * D)) as H. unfold D in *. nra. }
  match goal with |- context [rle ?a 1] => rewrite (rle_false a 1) by lra end.
  rewrite andb_false_r. ideal_cbn. rewrite ?req_false by lra. reflexivity.
Qed.

(** ** The UTM round trip in the southern hemisphere *)

Lemma Int_part_eq (x : R) (z : Z) : IZR z <= x < IZR z + 1 -> Int_part x = z.
Proof.
  intros [H1 H2].
  assert (z <= Int_part x)%Z by now apply Int_part_ge.
  assert (Int_part x <= z)%Z by now apply Int_part_le.
  lia.
Qed.

Lemma Ztrunc_eq (x : R) (z : Z) : (0 <= z)%Z -> IZR z <= x < IZR z + 1 -> Ztrunc x = z.
Proof.
  intros Hz H. unfold Ztrunc. apply IZR_le in Hz.
  rewrite rle_true by lra. now apply Int_part_eq.
Qed.

Lemma xint_eq (x : R) (z : Z) :
  (0 <= z <= INT_MAX)%Z -> IZR z <= x < IZR z + 1 -> xint (Fin x) = z.
Proof.
  intros Hz H. unfold xint. rewrite (Ztrunc_eq x z) by (lia || exact H).
  replace (INT_MIN <=? z)%Z with true by (symmetry; apply Z.leb_le; unfold INT_MIN; lia).
  replace (z <=? INT_MAX)%Z with true by (symmetry; apply Z.leb_le; lia).
  reflexivity.
Qed.

Lemma GetZone_south : GetZone P_south = 31%Z.
Proof.
  unfold GetZone, P_south. ideal_cbn.
  rewrite (req_false 6 0) by lra. ideal_cbn.
  unfold Zfloor. rewrite (Int_part_eq ((3 + 180) / 6) 30) by (simpl; lra).
  rewrite (xint_eq 30 30) by (unfold INT_MAX; simpl; lia || lra).
  rewrite (rlt_false 56 (-1)) by lra. rewrite (rlt_false 72 (-1)) by lra.
  reflexivity.
Qed.

Lemma GetZoneLetter_south : GetZoneLetter P_south = "M"%char.
Proof.
  unfold GetZoneLetter, P_south. ideal_cbn.
  rewrite (rle_false 72 (-1)) by lra. ideal_cbn.
  rewrite (req_false 8 0) by lra.
  unfold Zfloor. rewrite (Int_part_eq (-1 + 80) 79) by (simpl; lra).
  rewrite (xint_eq (79 / 8) 9) by (unfold INT_MAX; simpl; lia || lra).
  reflexivity.
Qed.

Ltac trig_arith :=
  first
    [ lra
    | match goal with |- context [sqrt ?x] => pose proof (sqrt_pos x); lra end
    | nra ].


Lemma Rmult_sin_bound (c s B : R) :
  0 < c < B -> -1 <= s <= 1 -> - B < c * s < B.
Proof. intros [Hc1 Hc2] [Hs1 Hs2]. split; nra. Qed.

Lemma Rsqr_bound1 (s : R) : -1 <= s <= 1 -> 0 <= s * s <= 1.
Proof. intros [H1 H2]. split; nra. Qed.

Lemma Rmult_pos_bounds (a b la ha lb hb : R) :
  la < a < ha -> lb < b < hb -> 0 <= la -> 0 <= lb ->
  la * lb < a * b < ha * hb.
Proof. intros [Ha1 Ha2] [Hb1 Hb2] Hla Hlb. split; nra. Qed.

(** Bounds of a product from the bounds of its positive factors. *)
Ltac prod_bounds Ha Hb :=
  let X := fresh "X" in
  pose proof (Rmult_pos_bounds _ _ _ _ _ _ Ha Hb) as X;
  specialize (X ltac:(lra) ltac:(lra)).

Lemma Rmult_unit_bound (c q B : R) :
  0 < c < B -> 0 <= q <= 1 -> 0 <= c * q < B.
Proof. intros [Hc1 Hc2] [Hq1 Hq2]. split; nra. Qed.

Lemma sqrt_bounds (x lo hi : R) :
  0 <= lo -> 0 < hi -> lo * lo < x < hi * hi -> lo < sqrt x < hi.
Proof.
  intros Hlo Hhi [H1 H2].
  assert (Hx : 0 <= x) by nra.
  pose proof (sqrt_pos x) as Hp. pose proof (sqrt_sqrt x Hx) as Hq.
  set (s := sqrt x) in *. split; nra.
Qed.

Lemma ToUTM_south :
  forall u, u = ToUTM P_south ->
  exists n : R,
    u = mkUTM 31 "M" (Fin 500000) (Fin n) /\ 9860000 < n < 10140000.
Proof.
  intros u H. cbv beta delta [ToUTM] in H.
  rewrite GetZone_south, GetZoneLetter_south in H.
  zeta_let H. zeta_let H.
  cbv beta iota delta [P_south m_Latitude m_Longitude] in H.
  step_let H k0 Hk0 lra.
  step_let H dEastingOffset HdE lra.
  step_let H dNO HdNO lra.
  step_let H a Ha lra.
  step_let H flat Hflat lra.
  assert (Bflat : 33528 / 10000000 < flat < 33529 / 10000000) by lra.
  step_let H ecc2 Hecc2 lra.
  assert (Becc2 : 669 / 100000 < ecc2 < 670 / 100000).
  { prod_bounds Bflat Bflat. lra. }
  step_let H ecc12 Hecc12 lra.
  step_let H dLatitude HdLat lra.
  step_let H dLongitude HdLon lra.
  rewrite (Ztrunc_unit ((3 + 180) / 360)) in HdLon by lra.
  step_let H dCentralLongitude HdC lra.
  simpl (31 - 1)%Z in HdC.
  assert (Hs2 : 0 <= sin dLatitude * sin dLatitude <= 1).
  { apply Rsqr_bound1, SIN_bound. }
  assert (Hcos : 0 < cos dLatitude).
  { apply cos_small_pos. lra. }
  assert (HW : 0 < 1 + - (ecc2 * sin dLatitude * sin dLatitude)).
  { rewrite Rmult_assoc.
    pose proof (Rmult_unit_bound ecc2 _ (670 / 100000) ltac:(lra) Hs2). lra. }
  step_let H nn HN
    ltac:(first [ lra | apply Rgt_not_eq, Rlt_gt, sqrt_lt_R0; lra ]).
  step_let H tsq HT lra.
  step_let H csq HC lra.
  step_let H aa HA lra.
  assert (HA0 : aa = 0) by (rewrite HA, HdLon, HdC; ring).
  clear HA. subst aa.
  step_let H mm HM lra.
  assert (BM : -130000 < mm < 130000).
  { pose proof (SIN_bound (2 * dLatitude)) as [S2a S2b].
    pose proof (SIN_bound (4 * dLatitude)) as [S4a S4b].
    pose proof (SIN_bound (6 * dLatitude)) as [S6a S6b].
    set (s2 := sin (2 * dLatitude)) in *.
    set (s4 := sin (4 * dLatitude)) in *.
    set (s6 := sin (6 * dLatitude)) in *.
    assert (Be2 : 44 / 1000000 < ecc2 * ecc2 < 45 / 1000000).
    { prod_bounds Becc2 Becc2. lra. }
    assert (Be3 : 0 < ecc2 * ecc2 * ecc2 < 1 / 1000000).
    { prod_bounds Be2 Becc2. lra. }
    set (c0 := 1 + - (ecc2 / 4) + - (3 * ecc2 * ecc2 / 64)
               + - (5 * ecc2 * ecc2 * ecc2 / 256)) in *.
    set (c2 := 3 * ecc2 / 8 + 3 * ecc2 * ecc2 / 32 + 45 * ecc2 * ecc2 * ecc2 / 1024) in *.
    set (c4 := 15 * ecc2 * ecc2 / 256 + 45 * ecc2 * ecc2 * ecc2 / 1024) in *.
    set (c6 := 35 * ecc2 * ecc2 * ecc2 / 3072) in *.
    assert (Bc0 : 99 / 100 < c0 < 1) by (unfold c0; lra).
    assert (Bc2 : 0 < c2 < 26 / 10000) by (unfold c2; lra).
    assert (Bc4 : 0 < c4 < 1 / 100000) by (unfold c4; lra).
    assert (Bc6 : 0 < c6 < 1 / 1000000) by (unfold c6; lra).
    assert (B0 : -175 / 10000 < c0 * dLatitude < 0).
    { assert (BL : 174 / 10000 < - dLatitude < 175 / 10000) by lra.
      prod_bounds Bc0 BL.
      lra. }
    pose proof (Rmult_sin_bound c2 s2 _ Bc2 (conj S2a S2b)) as B2.
    pose proof (Rmult_sin_bound c4 s4 _ Bc4 (conj S4a S4b)) as B4.
    pose proof (Rmult_sin_bound c6 s6 _ Bc6 (conj S6a S6b)) as B6.
    rewrite HM, Ha. lra. }
  step_let H dUTMEasting HE lra.
  assert (HE5 : dUTMEasting = 500000).
  { rewrite HE, HdE. unfold Rdiv. ring. }
  clear HE. subst dUTMEasting.
  step_let H dUTMNorthing HNo lra.
  assert (HNk : dUTMNorthing = k0 * mm).
  { rewrite HNo. unfold Rdiv. ring. }
  clear HNo.
  step_let H dUTMNorthing0 HNo0 lra.
  step_let H dUTMEasting0 HE0 lra.
  assert (HE0' : dUTMEasting0 = 500000).
  { rewrite HE0. unfold Zfloor.
    rewrite (Int_part_eq (500000 + 5 / 10) 500000) by (simpl; lra). reflexivity. }
  clear HE0. subst dUTMEasting0.
  step_let H dUTMNorthing1 HNo1 lra.
  exists dUTMNorthing1. split; [exact H|].
  rewrite HNo1. unfold Zfloor.
  destruct (base_Int_part (dUTMNorthing0 + 5 / 10)) as [Hb1 Hb2].
  rewrite HNo0, HNk, HdNO, Hk0 in *. lra.
Qed.

Lemma ConvertUTM_south (this : CLatLon ideal) (n : R) :
  9860000 < n < 10140000 ->
  forall r, r = ConvertUTM this 31 "M" (Fin 500000) (Fin n) ->
  exists lat : R, r = (true, mkLatLon (Fin lat) (Fin 3)) /\ 79 < lat < 84.
Proof.
  intros Bn r H. cbv beta delta [ConvertUTM] in H.
  step_let H k0 Hk0 lra.
  step_let H dEastingOffset HdE lra.
  step_let H dNO HdNO lra.
  step_let H a Ha lra.
  step_let H flat Hflat lra.
  assert (Bflat : 33528 / 10000000 < flat < 33529 / 10000000) by lra.
  step_let H ecc2 Hecc2 lra.
  assert (Becc2 : 669 / 100000 < ecc2 < 670 / 100000).
  { prod_bounds Bflat Bflat. lra. }
  step_let H ecc12 Hecc12 lra.
  assert (Bs : 9966 / 10000 < sqrt (1 + - ecc2) < 9967 / 10000).
  { apply sqrt_bounds; lra. }
  step_let H e1 He1 lra.
  assert (Be1 : 165 / 100000 < e1 < 171 / 100000).
  { rewrite He1. apply Rdiv_bounds; lra. }
  step_let H x Hx lra.
  step_let H y Hy lra.
  zeta_let H.
  replace (toupper "M") with "M"%char in H by reflexivity.
  replace (string_find m_strZoneLetters "M") with (Some 9%nat) in H by reflexivity.
  replace (Z.of_nat (nat_of_ascii "M") - Z.of_nat (nat_of_ascii "N") <? 0)%Z
    with true in H by reflexivity.
  cbv iota in H.
  step_let H y0 Hy0 lra.
  step_let H dCentralLongitude HdC lra.
  simpl (31 - 1)%Z in HdC.
  step_let H mm HM lra.
  assert (Be2 : 44 / 1000000 < ecc2 * ecc2 < 45 / 1000000).
  { prod_bounds Becc2 Becc2. lra. }
  assert (Be3 : 0 < ecc2 * ecc2 * ecc2 < 1 / 1000000).
  { prod_bounds Be2 Becc2. lra. }
  assert (Bc0 : 99 / 100 < 1 + - (ecc2 / 4) + - (3 * ecc2 * ecc2 / 64)
                              + - (5 * ecc2 * ecc2 * ecc2 / 256) < 1) by lra.
  assert (Hac : 0 < a * (1 + - (ecc2 / 4) + - (3 * ecc2 * ecc2 / 64)
                        + - (5 * ecc2 * ecc2 * ecc2 / 256))).
  { apply Rmult_lt_0_compat; lra. }
  step_let H mu Hmu lra.
  assert (Bmu : 1389 / 1000 < mu < 1450 / 1000).
  { rewrite Hmu.
    set (c0 := 1 + - (ecc2 / 4) + - (3 * ecc2 * ecc2 / 64)
               + - (5 * ecc2 * ecc2 * ecc2 / 256)) in *.
    assert (Bmm : 8863000 < mm < 9144000).
    { rewrite HM, Hy0, Hy, HdNO, Hk0. apply Rdiv_bounds; lra. }
    apply Rdiv_bounds; [exact Hac|]. fold c0. rewrite Ha. lra. }
  step_let H phi1 Hphi1 lra.
  assert (Bphi : 1386 / 1000 < phi1 < 1453 / 1000).
  { pose proof (SIN_bound (2 * mu)) as [S2a S2b].
    pose proof (SIN_bound (4 * mu)) as [S4a S4b].
    pose proof (SIN_bound (6 * mu)) as [S6a S6b].
    set (s2 := sin (2 * mu)) in *.
    set (s4 := sin (4 * mu)) in *.
    set (s6 := sin (6 * mu)) in *.
    assert (Bee : 2 / 1000000 < e1 * e1 < 3 / 1000000).
    { prod_bounds Be1 Be1. lra. }
    assert (Beee : 0 < e1 * e1 * e1 < 1 / 100000000).
    { prod_bounds Bee Be1. lra. }
    assert (Beeee : 0 < e1 * e1 * e1 * e1 < 1 / 100000000).
    { prod_bounds Beee Be1. lra. }
    set (t2 := 3 * e1 / 2 + - (27 * e1 * e1 * e1 / 32)) in *.
    set (t4 := 21 * e1 * e1 / 16 + - (55 * e1 * e1 * e1 * e1 / 32)) in *.
    set (t6 := 151 * e1 * e1 * e1 / 96) in *.
    assert (Bt2 : 0 < t2 < 26 / 10000) by (unfold t2; lra).
    assert (Bt4 : 0 < t4 < 1 / 100000) by (unfold t4; lra).
    assert (Bt6 : 0 < t6 < 1 / 1000000) by (unfold t6; lra).
    pose proof (Rmult_sin_bound t2 s2 _ Bt2 (conj S2a S2b)) as B2.
    pose proof (Rmult_sin_bound t4 s4 _ Bt4 (conj S4a S4b)) as B4.
    pose proof (Rmult_sin_bound t6 s6 _ Bt6 (conj S6a S6b)) as B6.
    rewrite Hphi1. lra. }
  assert (Hs2 : 0 <= sin phi1 * sin phi1 <= 1).
  { apply Rsqr_bound1, SIN_bound. }
  assert (Hcos : 0 < cos phi1).
  { pose proof PI2_3_2. apply cos_gt_0; lra. }
  assert (HW : 0 < 1 + - (ecc2 * sin phi1 * sin phi1)).
  { rewrite Rmult_assoc.
    pose proof (Rmult_unit_bound ecc2 _ (670 / 100000) ltac:(lra) Hs2). lra. }
  step_let H N1 HN1
    ltac:(first [ lra | apply Rgt_not_eq, Rlt_gt, sqrt_lt_R0; lra ]).
  assert (HN1pos : 0 < N1).
  { rewrite HN1. apply Rdiv_lt_0_compat; [lra|]. apply sqrt_lt_R0. lra. }
  step_let H T1 HT1 lra.
  step_let H cc1 HC1 lra.
  step_let H rr1 HR1
    ltac:(first [ lra
                | match goal with |- Rpower ?b ?e <> 0 =>
                    unfold Rpower; pose proof (exp_pos (e * ln b)); lra end ]).
  assert (HR1pos : 0 < rr1).
  { rewrite HR1. apply Rdiv_lt_0_compat; [apply Rmult_lt_0_compat; lra|].
    unfold Rpower. apply exp_pos. }
  assert (HNk : 0 < N1 * k0) by (apply Rmult_lt_0_compat; lra).
  step_let H D_ HD lra.
  assert (HD0 : D_ = 0) by (rewrite HD, Hx, HdE; unfold Rdiv; ring).
  clear HD. subst D_.
  step_let H dLatitude HdLat lra.
  assert (HdLat' : dLatitude = phi1) by (rewrite HdLat; unfold Rdiv; ring).
  clear HdLat. subst dLatitude.
  step_let H dLongitude HdLon lra.
  assert (HdLon' : dLongitude = 0) by (rewrite HdLon; unfold Rdiv; ring).
  clear HdLon. subst dLongitude.
  rewrite m_Deg2Rad_ideal in H.
  cbn [ddiv dadd ideal_arith xdiv xadd] in H.
  rewrite (req_false (174532925199433 / 10000000000000000) 0) in H by lra.
  replace ((dCentralLongitude + 0) / (174532925199433 / 10000000000000000))
    with 3 in H
    by (rewrite HdC, Rplus_0_r; unfold Rdiv at 1;
        rewrite Rmult_assoc, Rinv_r by lra; lra).
  eexists. split; [exact H|].
  apply Rdiv_bounds; lra.
Qed.


(** C1, the failing input: the point (-1, 3) lies on the central meridian of
    zone 31, one degree south of the equator.  [ToUTM] gives it the
    reference 31 M, easting 500000, with the false northing 10000000 added;
    [ConvertUTM] subtracts 1000000 only and answers a point between the
    latitudes 79 and 84 north (longitude 3): some 9000 km from the point,
    not within 1 m. *)
Lemma UTM_roundtrip_south :
  exists lat : R,
    UTM_roundtrip P_south = (true, mkLatLon (Fin lat) (Fin 3)) /\ 79 < lat < 84.
Proof.
  unfold UTM_roundtrip.
  destruct (ToUTM_south _ eq_refl) as (n & -> & Bn).
  cbn [utm_zone utm_letter utm_easting utm_northing].
  exact (ConvertUTM_south P_south n Bn _ eq_refl).
Qed.

(** * Further properties of the code *)

(** ** Angles and integer parts *)

Lemma PI_lower : 3141592653589793 / 10^15 < Rtrigo1.PI.
Proof.
  pose proof (PI_2_3_7_ineq 8) as [H _].
  unfold sum_f_R0, tg_alt, PI_2_3_7_tg, Ratan_seq in H.
  simpl in H.
  lra.
Qed.

Lemma deg_quarter (lat : R) :
  -89 <= lat <= 89 ->
  - (Rtrigo1.PI / 2) < lat * (174532925199433 / 10000000000000000) < Rtrigo1.PI / 2.
Proof. intros H. pose proof PI_lower. lra. Qed.

Lemma deg_half (lon : R) :
  -179 <= lon <= 179 ->
  - Rtrigo1.PI < lon * (174532925199433 / 10000000000000000) < Rtrigo1.PI.
Proof. intros H. pose proof PI_lower. lra. Qed.

Lemma Ztrunc_small (x : R) : -1 < x < 1 -> Ztrunc x = 0%Z.
Proof.
  intros H. destruct (Rle_dec 0 x) as [H0|H0].
  - apply Ztrunc_unit. lra.
  - unfold Ztrunc. rewrite rle_false by lra.
    rewrite (Int_part_eq (- x) 0) by (simpl; lra). reflexivity.
Qed.

Lemma mult_sin_between (c x B : R) : - B <= c <= B -> - B <= c * sin x <= B.
Proof.
  intros [Hc1 Hc2]. pose proof (SIN_bound x) as [H1 H2].
  destruct (Rle_dec 0 c) as [Hc|Hc].
  - assert (c * -1 <= c * sin x) by (apply Rmult_le_compat_l; lra).
    assert (c * sin x <= c * 1) by (apply Rmult_le_compat_l; lra).
    lra.
  - assert ((- c) * -1 <= (- c) * sin x) by (apply Rmult_le_compat_l; lra).
    assert ((- c) * sin x <= (- c) * 1) by (apply Rmult_le_compat_l; lra).
    lra.
Qed.

(** Names the next [let] of the function unfolded in [H], keeping its
    equation. *)
Ltac name_let H :=
  lazymatch type of H with
  | (let x := ?X in @?F x) = ?r =>
      let v := fresh x in
      pose (v := X); change (F v = r) in H; cbv beta in H;
      let Hv := fresh "E" v in
      assert (Hv : v = X) by reflexivity; clearbody v
  end.

(** Names the next [let] of two unfoldings that agree on it. *)
Ltac name_let2 H1 H2 :=
  lazymatch type of H1 with
  | (let x := ?X in @?F x) = ?r1 =>
      lazymatch type of H2 with
      | (let y := ?Y in @?G y) = ?r2 =>
          let v := fresh x in
          pose (v := X); change (F v = r1) in H1; change (G v = r2) in H2;
          cbv beta in H1, H2; clearbody v
      end
  end.

(** Replaces the next [let] by its value. *)
Ltac inline_let H :=
  lazymatch type of H with
  | (let x := ?X in @?F x) = ?r => change (F X = r) in H; cbv beta in H
  end.

(** ** The zone number *)

Lemma Ztrunc_IZR (k : Z) : Ztrunc (IZR k) = k.
Proof.
  unfold Ztrunc, rle. destruct (Rle_dec 0 (IZR k)) as [H|H].
  - apply Int_part_eq. lra.
  - rewrite <- opp_IZR. rewrite (Int_part_eq (IZR (- k)) (- k)) by lra. lia.
Qed.

Lemma xint_IZR (k : Z) : (INT_MIN <= k <= INT_MAX)%Z -> xint (Fin (IZR k)) = k.
Proof.
  intros [H1 H2]. unfold xint. rewrite Ztrunc_IZR.
  apply Z.leb_le in H1, H2. now rewrite H1, H2.
Qed.

(** The zone that the first statement of [GetZone] computes. *)
Lemma GetZone_floor (lon : R) (k : Z) :
  IZR k <= (lon + 180) / 6 < IZR k + 1 -> (INT_MIN <= k <= INT_MAX)%Z ->
  int_of_double (dfloor ((Fin lon + #180) / #6)%D) = k.
Proof.
  intros Hk Hr. ideal_cbn. rewrite (req_false 6 0) by lra. ideal_cbn.
  unfold Zfloor. rewrite (Int_part_eq _ k Hk). now apply xint_IZR.
Qed.





(** West of -180 the remainder keeps the sign of the quotient. *)
(** X2: a longitude from -186 up to -180 is given the zone number 0, which
    is no UTM zone: the remainder [%] of C++ keeps the sign of the negative
    quotient, so the zone does not wrap to 60. *)
Theorem GetZone_west_of_minus_180 :
  forall (lat : ideal) (lon : R),
    -186 <= lon < -180 ->
    GetZone (mkLatLon lat (Fin lon)) = 0%Z.
Proof.
  intros lat lon Hlon.
  assert (Hk : IZR (-1) <= (lon + 180) / 6 < IZR (-1) + 1) by (simpl; lra).
  pose proof (GetZone_floor lon (-1) Hk ltac:(unfold INT_MIN, INT_MAX; lia)) as Hf.
  unfold GetZone. cbn [m_Longitude m_Latitude]. rewrite Hf.
  cbn [dltb dleb of_Z ideal_arith xltb xleb].
  rewrite (rlt_false 3 lon) by lra. rewrite (rle_false 0 lon) by lra.
  rewrite (rle_false 9 lon) by lra. rewrite (rle_false 21 lon) by lra.
  rewrite (rle_false 33 lon) by lra.
  rewrite !andb_false_r. cbn [andb].
  destruct (_ && _); reflexivity.
Qed.

Lemma GetZone_west_of_minus_180_witness :
  -186 <= -183 < -180 /\ GetZone (mkLatLon (Fin 10) (Fin (-183))) = 0%Z.
Proof. split; [lra | apply GetZone_west_of_minus_180; lra]. Defined.




(** X4: between the latitudes 72 and 84 and the longitudes 0 and 42,
    [GetZone] returns one of the zones 31, 33, 35 and 37 only, and the
    longitude lies within 6 degrees of that zone's central meridian. *)
Theorem GetZone_Svalbard :
  forall lat lon : R,
    72 < lat < 84 -> 0 <= lon < 42 ->
    let z := GetZone (mkLatLon (Fin lat) (Fin lon)) in
    (z = 31 \/ z = 33 \/ z = 35 \/ z = 37)%Z
    /\ -6 <= lon - IZR (6 * z - 183) < 6.
Proof.
  intros lat lon Hlat Hlon.
  unfold GetZone. cbn [m_Longitude m_Latitude].
  cbn [dltb dleb of_Z ideal_arith xltb xleb].
  rewrite (rlt_true 72 lat), (rlt_true lat 84), (rle_true 0 lon) by lra.
  cbn [andb].
  destruct (Rlt_dec lon 9) as [H9|H9].
  { rewrite (rlt_true lon 9) by lra. cbv zeta. simpl IZR. split; [tauto|lra]. }
  rewrite (rlt_false lon 9), (rle_true 9 lon) by lra. cbn [andb].
  destruct (Rlt_dec lon 21) as [H21|H21].
  { rewrite (rlt_true lon 21) by lra. cbv zeta. simpl IZR. split; [tauto|lra]. }
  rewrite (rlt_false lon 21), (rle_true 21 lon) by lra. cbn [andb].
  destruct (Rlt_dec lon 33) as [H33|H33].
  { rewrite (rlt_true lon 33) by lra. cbv zeta. simpl IZR. split; [tauto|lra]. }
  rewrite (rlt_false lon 33), (rle_true 33 lon), (rlt_true lon 42) by lra.
  cbv zeta. simpl IZR. split; [tauto|lra].
Qed.

Lemma GetZone_Svalbard_witness :
  72 < 78 < 84 /\ 0 <= 15 < 42
  /\ let z := GetZone (mkLatLon (Fin 78) (Fin 15)) in
     (z = 31 \/ z = 33 \/ z = 35 \/ z = 37)%Z
     /\ -6 <= 15 - IZR (6 * z - 183) < 6.
Proof. split; [lra|]. split; [lra|]. apply GetZone_Svalbard; lra. Defined.

(** ** The zone letter *)









(** ** What [ConvertUTM] reads of its arguments *)

(** X7: [ConvertUTM] reads of its zone letter only whether its upper case
    is in the table and whether it is before ['N'], and on success it reads
    nothing of the point it overwrites: two calls with accepted letters of
    the same hemisphere and the same zone, easting and northing return the
    same result, whatever the letters' case and band and whatever the
    points (any arithmetic). *)
Theorem ConvertUTM_letter_only_hemisphere :
  forall (D : Type) (AD : Arith D) (MD : CMath D) (this this' : CLatLon D)
         (iZone : Z) (c c' : ascii) (dEasting dNorthing : D),
    in_table (toupper c) = true -> in_table (toupper c') = true ->
    south_letter c = south_letter c' ->
    ConvertUTM this iZone c dEasting dNorthing
    = ConvertUTM this' iZone c' dEasting dNorthing.
Proof.
  intros D AD MD this this' iZone c c' dEasting dNorthing Hc Hc' Hs.
  unfold in_table in Hc, Hc'. unfold south_letter in Hs.
  remember (ConvertUTM this iZone c dEasting dNorthing) as r1 eqn:H1.
  remember (ConvertUTM this' iZone c' dEasting dNorthing) as r2 eqn:H2.
  symmetry in H1, H2.
  cbv beta delta [ConvertUTM] in H1, H2.
  do 10 name_let2 H1 H2.
  inline_let H1. inline_let H2.
  destruct (string_find m_strZoneLetters (toupper c)); [|discriminate].
  destruct (string_find m_strZoneLetters (toupper c')); [|discriminate].
  rewrite Hs in H1.
  repeat name_let2 H1 H2.
  congruence.
Qed.

Lemma ConvertUTM_letter_only_hemisphere_witness :
  in_table (toupper "u") = true /\ in_table (toupper "N") = true
  /\ south_letter "u" = south_letter "N"
  /\ ConvertUTM P_liege 31 "u" (Fin 500000) (Fin 5500000)
     = ConvertUTM P_origin 31 "N" (Fin 500000) (Fin 5500000).
Proof.
  repeat (split; [reflexivity|]).
  apply (@ConvertUTM_letter_only_hemisphere ideal ideal_arith ideal_cmath);
    reflexivity.
Defined.

Lemma zone_shift_longitude (iZone k : Z) (dLon : ideal) (lon : R) :
  (((#(iZone - 1) * #6 - #180 + #3) * m_Deg2Rad + dLon) / m_Deg2Rad)%D = Fin lon ->
  (((#(iZone + k - 1) * #6 - #180 + #3) * m_Deg2Rad + dLon) / m_Deg2Rad)%D
  = Fin (lon + 6 * IZR k).
Proof.
  rewrite m_Deg2Rad_ideal.
  set (dg := 174532925199433 / 10000000000000000).
  assert (Hdg : 0 < dg) by (unfold dg; lra).
  cbn [of_Z dadd dsub dmul ddiv ideal_arith xadd xsub xmul xneg].
  destruct dLon as [d| | |]; cbn [xadd xdiv];
    rewrite ?(req_false dg 0), ?(rlt_false dg 0) by lra; try discriminate.
  intros HLon. injection HLon as HLon. f_equal. rewrite <- HLon.
  rewrite !minus_IZR, plus_IZR. field. lra.
Qed.

(** X8: the zone number enters the result of [ConvertUTM] through the
    central meridian alone: when a call returns a numeric point, the call
    with the zone moved by [k] returns the same latitude and the longitude
    moved by [6 * k] degrees (exact arithmetic).  The zone is not checked
    against 1..60. *)
Theorem ConvertUTM_zone_shift :
  forall (this : CLatLon ideal) (iZone k : Z) (c : ascii)
         (dEasting dNorthing : ideal) (lat lon : R),
    ConvertUTM this iZone c dEasting dNorthing = (true, mkLatLon (Fin lat) (Fin lon)) ->
    ConvertUTM this (iZone + k) c dEasting dNorthing
    = (true, mkLatLon (Fin lat) (Fin (lon + 6 * IZR k))).
Proof.
  intros this iZone k c dEasting dNorthing lat lon H1.
  remember (ConvertUTM this (iZone + k) c dEasting dNorthing) as r2 eqn:H2.
  symmetry in H2.
  cbv beta delta [ConvertUTM] in H1, H2.
  do 10 name_let2 H1 H2.
  inline_let H1. inline_let H2.
  destruct (string_find m_strZoneLetters (toupper c)); [|discriminate].
  name_let2 H1 H2.
  name_let H1. name_let H2.
  repeat name_let2 H1 H2.
  subst dCentralLongitude dCentralLongitude0.
  rewrite <- H2. clear H2.
  match type of H1 with
  | (_, mkLatLon ?la ?lo) = _ =>
      assert (HLat : la = Fin lat) by congruence;
      assert (HLon : lo = Fin lon) by congruence
  end.
  rewrite HLat, (zone_shift_longitude iZone k _ lon HLon). reflexivity.
Qed.

(** ** [ConvertUTM] on the equator and on the central meridian *)

Lemma ConvertUTM_equator_eval (this : CLatLon ideal) (iZone : Z) (c : ascii) (e : R) :
  in_table (toupper c) = true -> south_letter c = false ->
  forall r, r = ConvertUTM this iZone c (Fin e) (Fin 0) ->
  exists lon : R,
    r = (true, mkLatLon (Fin 0) (Fin lon))
    /\ (e = 500000 -> lon = IZR (6 * iZone - 183)).
Proof.
  intros Hc Hs r H. unfold in_table in Hc. unfold south_letter in Hs.
  cbv beta delta [ConvertUTM] in H.
  step_let H k0 Hk0 lra.
  step_let H dEastingOffset HdE lra.
  step_let H dNO HdNO lra.
  step_let H a Ha lra.
  step_let H flat Hflat lra.
  assert (Bflat : 33528 / 10000000 < flat < 33529 / 10000000) by lra.
  step_let H ecc2 Hecc2 lra.
  assert (Becc2 : 669 / 100000 < ecc2 < 670 / 100000)
    by (prod_bounds Bflat Bflat; lra).
  step_let H ecc12 Hecc12 lra.
  assert (Becc12 : 673 / 100000 < ecc12 < 675 / 100000)
    by (rewrite Hecc12; apply Rdiv_bounds; lra).
  step_let H e1 He1 ltac:(pose proof (sqrt_pos (1 + - ecc2)); lra).
  step_let H x Hx lra.
  step_let H y Hy lra.
  zeta_let H.
  destruct (string_find m_strZoneLetters (toupper c)); [|discriminate].
  rewrite Hs in H. cbv iota in H.
  step_let H y0 Hy0 lra.
  step_let H dCentralLongitude HdC lra.
  step_let H M HM lra.
  assert (Be2 : 0 < ecc2 * ecc2 < 1 / 10000) by (prod_bounds Becc2 Becc2; lra).
  assert (Be3 : 0 < ecc2 * ecc2 * ecc2 < 1 / 10000) by (prod_bounds Be2 Becc2; lra).
  assert (Bc0 : 99 / 100 < 1 + - (ecc2 / 4) + - (3 * ecc2 * ecc2 / 64)
                              + - (5 * ecc2 * ecc2 * ecc2 / 256) < 1) by lra.
  step_let H mu Hmu ltac:(first [lra | apply Rgt_not_eq, Rlt_gt, Rmult_lt_0_compat; lra]).
  assert (Hmu0 : mu = 0).
  { rewrite Hmu, HM, Hy0, Hy. unfold Rdiv. ring. }
  clear Hmu. subst mu.
  step_let H phi1 Hphi1 lra.
  assert (Hphi0 : phi1 = 0).
  { rewrite Hphi1. replace (2 * 0) with 0 by ring. replace (4 * 0) with 0 by ring.
    replace (6 * 0) with 0 by ring. rewrite sin_0. ring. }
  clear Hphi1. subst phi1.
  step_let H N1 HN1 ltac:(rewrite ?sin_0, ?Rmult_0_r, ?Ropp_0, ?Rplus_0_r, ?sqrt_1; lra).
  assert (HN1a : N1 = a).
  { rewrite HN1, sin_0, !Rmult_0_r, Ropp_0, Rplus_0_r, sqrt_1. field. }
  step_let H T1 HT1 ltac:(rewrite ?cos_0; lra).
  assert (HT0 : T1 = 0) by (rewrite HT1, sin_0; unfold Rdiv; ring).
  step_let H cc1 HC1 lra.
  step_let H rr1 HR1
    ltac:(first [ lra
                | rewrite ?sin_0, ?Rmult_0_r, ?Ropp_0, ?Rplus_0_r; lra
                | match goal with |- Rpower ?b ?e <> 0 =>
                    unfold Rpower; pose proof (exp_pos (e * ln b)); lra end ]).
  assert (HR1pos : 0 < rr1).
  { rewrite HR1. apply Rdiv_lt_0_compat; [apply Rmult_lt_0_compat; lra|].
    unfold Rpower. apply exp_pos. }
  step_let H D_ HD ltac:(rewrite ?HN1a, ?Ha, ?Hk0; lra).
  step_let H dLatitude HdLat ltac:(rewrite ?cos_0; lra).
  assert (HdLat0 : dLatitude = 0).
  { rewrite HdLat, sin_0. unfold Rdiv. ring. }
  clear HdLat. subst dLatitude.
  step_let H dLongitude HdLon ltac:(rewrite ?cos_0; lra).
  rewrite m_Deg2Rad_ideal in H.
  cbn [ddiv dadd ideal_arith xdiv xadd] in H.
  rewrite (req_false (174532925199433 / 10000000000000000) 0) in H by lra.
  replace (0 / (174532925199433 / 10000000000000000)) with 0 in H
    by (unfold Rdiv; ring).
  eexists. split; [exact H|].
  intros He.
  assert (HD0 : D_ = 0).
  { rewrite HD, Hx, He, HdE. unfold Rdiv. ring. }
  assert (HdLon0 : dLongitude = 0).
  { rewrite HdLon, HD0. unfold Rdiv. ring. }
  rewrite HdLon0, HdC, Rplus_0_r.
  rewrite !minus_IZR, mult_IZR. simpl IZR. field.
Qed.


Lemma ConvertUTM_meridian_eval (this : CLatLon ideal) (iZone : Z) (c : ascii) (n : R) :
  in_table (toupper c) = true -> 0 <= n <= 9900000 ->
  forall r, r = ConvertUTM this iZone c (Fin 500000) (Fin n) ->
  exists lat : R,
    r = (true, mkLatLon (Fin lat) (Fin (IZR (6 * iZone - 183)))).
Proof.
  intros Hc Hn r H. unfold in_table in Hc.
  cbv beta delta [ConvertUTM] in H.
  step_let H k0 Hk0 lra.
  step_let H dEastingOffset HdE lra.
  step_let H dNO HdNO lra.
  step_let H a Ha lra.
  step_let H flat Hflat lra.
  assert (Bflat : 33528 / 10000000 < flat < 33529 / 10000000) by lra.
  step_let H ecc2 Hecc2 lra.
  assert (Becc2 : 669 / 100000 < ecc2 < 670 / 100000)
    by (prod_bounds Bflat Bflat; lra).
  step_let H ecc12 Hecc12 lra.
  pose proof (sqrt_bounds (1 + - ecc2) (996 / 1000) (997 / 1000)
                ltac:(lra) ltac:(lra) ltac:(lra)) as Bsq.
  step_let H e1 He1 lra.
  assert (Be1 : 15 / 10000 < e1 < 21 / 10000).
  { rewrite He1. apply Rdiv_bounds; lra. }
  step_let H x Hx lra.
  step_let H y Hy lra.
  zeta_let H.
  destruct (string_find m_strZoneLetters (toupper c)); [|discriminate].
  cbv iota in H.
  assert (Hy0 : exists y0 : R,
             (if (Z.of_nat (nat_of_ascii (toupper c)) - Z.of_nat (nat_of_ascii "N") <? 0)%Z
              then (Fin y - Fin dNO)%D else Fin y) = Fin y0
             /\ -1000000 <= y0 <= 9900000).
  { destruct (_ <? 0)%Z; eexists; (split; [reflexivity|]); lra. }
  destruct Hy0 as (y0 & Ey0 & By0). rewrite Ey0 in H. zeta_let H.
  clear Ey0.
  step_let H dCentralLongitude HdC lra.
  step_let H M HM lra.
  assert (BM : -1000500 < M < 9904000).
  { rewrite HM, Hk0. apply Rdiv_bounds; lra. }
  assert (Be2 : 0 < ecc2 * ecc2 < 1 / 10000) by (prod_bounds Becc2 Becc2; lra).
  assert (Be3 : 0 < ecc2 * ecc2 * ecc2 < 1 / 10000) by (prod_bounds Be2 Becc2; lra).
  assert (Bc0 : 998 / 1000 < 1 + - (ecc2 / 4) + - (3 * ecc2 * ecc2 / 64)
                               + - (5 * ecc2 * ecc2 * ecc2 / 256) < 1) by lra.
  step_let H mu Hmu ltac:(first [lra | apply Rgt_not_eq, Rlt_gt, Rmult_lt_0_compat; lra]).
  assert (Bmu : -1556 / 1000 < mu < 1556 / 1000).
  { remember (1 + - (ecc2 / 4) + - (3 * ecc2 * ecc2 / 64)
              + - (5 * ecc2 * ecc2 * ecc2 / 256)) as c0 eqn:Ec0.
    assert (Bac0 : 6365380 < a * c0 < 6378137).
    { assert (Ba : 6378136 < a < 6378138) by lra.
      prod_bounds Ba Bc0. rewrite Ha in *. lra. }
    rewrite Hmu. apply Rdiv_bounds; lra. }
  step_let H phi1 Hphi1 lra.
  assert (Bphi : -1563 / 1000 < phi1 < 1563 / 1000).
  { assert (Be12 : 0 < e1 * e1 < 1 / 10000) by (prod_bounds Be1 Be1; lra).
    assert (Be13 : 0 < e1 * e1 * e1 < 1 / 10000) by (prod_bounds Be12 Be1; lra).
    assert (Be14 : 0 < e1 * e1 * e1 * e1 < 1 / 10000) by (prod_bounds Be13 Be1; lra).
    pose proof (mult_sin_between (3 * e1 / 2 + - (27 * e1 * e1 * e1 / 32)) (2 * mu)
                  (1 / 250) ltac:(lra)) as B2.
    pose proof (mult_sin_between (21 * e1 * e1 / 16 + - (55 * e1 * e1 * e1 * e1 / 32))
                  (4 * mu) (1 / 1000) ltac:(lra)) as B4.
    pose proof (mult_sin_between (151 * e1 * e1 * e1 / 96) (6 * mu)
                  (1 / 1000) ltac:(lra)) as B6.
    rewrite Hphi1. lra. }
  assert (Hcos : 0 < cos phi1).
  { pose proof PI_lower. apply cos_gt_0; lra. }
  assert (Hs2 : 0 <= sin phi1 * sin phi1 <= 1).
  { apply Rsqr_bound1, SIN_bound. }
  assert (HW : 0 < 1 + - (ecc2 * sin phi1 * sin phi1)).
  { rewrite Rmult_assoc.
    pose proof (Rmult_unit_bound ecc2 _ (670 / 100000) ltac:(lra) Hs2). lra. }
  step_let H N1 HN1
    ltac:(first [ lra | apply Rgt_not_eq, Rlt_gt, sqrt_lt_R0; lra ]).
  assert (HN1pos : 0 < N1).
  { rewrite HN1. apply Rdiv_lt_0_compat; [lra | apply sqrt_lt_R0; lra]. }
  step_let H T1 HT1 lra.
  step_let H cc1 HC1 lra.
  step_let H rr1 HR1
    ltac:(first [ lra
                | match goal with |- Rpower ?b ?e <> 0 =>
                    unfold Rpower; pose proof (exp_pos (e * ln b)); lra end ]).
  assert (HR1pos : 0 < rr1).
  { rewrite HR1. apply Rdiv_lt_0_compat; [apply Rmult_lt_0_compat; lra|].
    unfold Rpower. apply exp_pos. }
  assert (HNk : 0 < N1 * k0) by (apply Rmult_lt_0_compat; lra).
  step_let H D_ HD lra.
  assert (HD0 : D_ = 0).
  { rewrite HD, Hx, HdE. unfold Rdiv. ring. }
  clear HD. subst D_.
  step_let H dLatitude HdLat lra.
  step_let H dLongitude HdLon lra.
  assert (HdLon0 : dLongitude = 0).
  { rewrite HdLon. unfold Rdiv. ring. }
  clear HdLon. subst dLongitude.
  rewrite m_Deg2Rad_ideal in H.
  cbn [ddiv dadd ideal_arith xdiv xadd] in H.
  rewrite (req_false (174532925199433 / 10000000000000000) 0) in H by lra.
  eexists. rewrite H. f_equal. f_equal. f_equal.
  rewrite HdC, Rplus_0_r.
  rewrite !minus_IZR, mult_IZR. simpl IZR. field.
Qed.

Lemma ConvertUTM_zone_shift_witness :
  ConvertUTM P_origin 31 "N" (Fin 500000) (Fin 0) = (true, mkLatLon (Fin 0) (Fin 3))
  /\ ConvertUTM P_origin (31 + 1) "N" (Fin 500000) (Fin 0)
     = (true, mkLatLon (Fin 0) (Fin (3 + 6 * 1))).
Proof.
  assert (H : ConvertUTM P_origin 31 "N" (Fin 500000) (Fin 0)
              = (true, mkLatLon (Fin 0) (Fin 3))).
  { destruct (ConvertUTM_equator_eval P_origin 31 "N" 500000 eq_refl eq_refl _ eq_refl)
      as (lon & E & Hlon).
    rewrite E, (Hlon eq_refl). reflexivity. }
  split; [exact H|].
  apply (ConvertUTM_zone_shift P_origin 31 1 "N" (Fin 500000) (Fin 0) 0 3). exact H.
Defined.

(** X9: a northing of 0 with a letter of the northern hemisphere is
    converted to the latitude 0 exactly, for every zone and every easting
    (exact arithmetic). *)
Theorem ConvertUTM_equator :
  forall (this : CLatLon ideal) (iZone : Z) (c : ascii) (e : R),
    in_table (toupper c) = true -> south_letter c = false ->
    exists lon : R,
      ConvertUTM this iZone c (Fin e) (Fin 0) = (true, mkLatLon (Fin 0) (Fin lon)).
Proof.
  intros this iZone c e Hc Hs.
  destruct (ConvertUTM_equator_eval this iZone c e Hc Hs _ eq_refl) as (lon & E & _).
  exists lon. exact E.
Qed.

Lemma ConvertUTM_equator_witness :
  in_table (toupper "p") = true /\ south_letter "p" = false
  /\ exists lon : R,
       ConvertUTM P_liege 17 "p" (Fin 630000) (Fin 0)
       = (true, mkLatLon (Fin 0) (Fin lon)).
Proof.
  split; [reflexivity|]. split; [reflexivity|].
  apply ConvertUTM_equator; reflexivity.
Defined.

(** X10: the easting 500000 is converted to the central meridian
    [6 * zone - 183] of the zone exactly, for every accepted letter and every
    northing from 0 to 9900000 (exact arithmetic). *)
Theorem ConvertUTM_central_meridian :
  forall (this : CLatLon ideal) (iZone : Z) (c : ascii) (n : R),
    in_table (toupper c) = true -> 0 <= n <= 9900000 ->
    exists lat : R,
      ConvertUTM this iZone c (Fin 500000) (Fin n)
      = (true, mkLatLon (Fin lat) (Fin (IZR (6 * iZone - 183)))).
Proof.
  intros this iZone c n Hc Hn.
  exact (ConvertUTM_meridian_eval this iZone c n Hc Hn _ eq_refl).
Qed.

Lemma ConvertUTM_central_meridian_witness :
  in_table (toupper "U") = true /\ 0 <= 5500000 <= 9900000
  /\ exists lat : R,
       ConvertUTM P_origin 31 "U" (Fin 500000) (Fin 5500000)
       = (true, mkLatLon (Fin lat) (Fin (IZR (6 * 31 - 183)))).
Proof.
  split; [reflexivity|]. split; [lra|].
  apply ConvertUTM_central_meridian; [reflexivity | lra].
Defined.

(** ** The distance on the sphere *)


Lemma cosine_law_symmetric (a b l1 l2 dg : R) :
  sin a * sin b + cos a * cos b * cos ((l1 + - l2) * dg)
  = sin b * sin a + cos b * cos a * cos ((l2 + - l1) * dg).
Proof.
  replace ((l2 + - l1) * dg) with (- ((l1 + - l2) * dg)) by ring.
  rewrite cos_neg. ring.
Qed.

(** X12: when the cosine-law distance is not below the threshold of 0.01,
    [SphericalDistance] is symmetric in its two points.  (The planar branch
    scales the longitude difference by the cosine of the second point's
    latitude only.) *)
Theorem SphericalDistance_symmetric :
  forall lat1 lon1 lat2 lon2 : R,
    let P := mkLatLon (Fin lat1) (Fin lon1) in
    let Q := mkLatLon (Fin lat2) (Fin lon2) in
    (cosine_law_distance P Q <? dec 1 2)%D = false ->
    SphericalDistance P Q = SphericalDistance Q P.
Proof.
  intros lat1 lon1 lat2 lon2 P Q. subst P Q.
  unfold cosine_law_distance, SphericalDistance. dconst.
  set (dg := 174532925199433 / 10000000000000000).
  cbv zeta. ideal_cbn.
  rewrite (cosine_law_symmetric (lat2 * dg) (lat1 * dg) lon2 lon1 dg).
  intros H. rewrite H. reflexivity.
Qed.

Lemma SphericalDistance_symmetric_witness :
  (cosine_law_distance P_origin P_east <? dec 1 2)%D = false
  /\ SphericalDistance P_origin P_east = SphericalDistance P_east P_origin.
Proof.
  assert (H : (cosine_law_distance P_origin P_east <? dec 1 2)%D = false).
  { unfold cosine_law_distance, P_origin, P_east. dconst.
    set (dg := 174532925199433 / 10000000000000000).
    cbv zeta. ideal_cbn.
    rewrite !Rmult_0_l, sin_0, cos_0.
    replace (0 * 0 + 1 * 1 * cos ((0 + - (1)) * dg)) with (cos dg).
    2:{ replace ((0 + - (1)) * dg) with (- dg) by ring. rewrite cos_neg. ring. }
    pose proof (COS_bound dg) as [Hc1 Hc2].
    rewrite (rle_true (-1) (cos dg)), (rle_true (cos dg) 1) by lra. ideal_cbn.
    rewrite acos_cos by (pose proof PI_lower; unfold dg; lra).
    rewrite dec_ideal. ideal_cbn.
    apply rlt_false. unfold dg. simpl. lra. }
  split; [exact H|].
  apply (SphericalDistance_symmetric 0 0 0 1). exact H.
Defined.

(** ** Longitudes a full turn apart *)







(** ** The segment test *)




(** ** The cross-track distance *)

Lemma xfabs_fin (x : ideal) (a : R) : xfabs x = Fin a -> exists b : R, x = Fin b /\ a = Rabs b.
Proof.
  destruct x as [b| | |]; simpl; intros H; try discriminate.
  exists b. split; [reflexivity|]. congruence.
Qed.

Lemma quarter_turn_bound (t : R) :
  0 <= t <= Rtrigo1.PI ->
  Rabs (636670701896486 / 100000000 * (314159265358979 / 100000000000000 / 2 + - t))
  <= 10000801.
Proof.
  intros Ht. pose proof PI_upper. pose proof PI_lower.
  apply Rabs_le. lra.
Qed.

(** X15: whenever the cross-track [SphericalDistance] is a number, it is
    non-negative if [IsBetween] holds and non-positive otherwise, and its
    magnitude is at most 10000801 m, a quarter of the circumference. *)
Theorem SphericalDistance2_sign :
  forall (P P1 P2 : CLatLon ideal) (v : R),
    SphericalDistance2 P P1 P2 = Fin v ->
    (if IsBetween P P1 P2 then 0 <= v else v <= 0) /\ Rabs v <= 10000801.
Proof.
  intros P P1 P2 v. unfold SphericalDistance2. cbv zeta.
  set (d := dot _ _). clearbody d.
  dconst. unfold PI. rewrite dec_ideal. pow10.
  cbn [of_Z dmul dsub ddiv dfabs dacos ideal_arith ideal_cmath].
  cbn [xdiv]. rewrite (req_false 2 0) by lra.
  assert (Hx : forall s : R, (s = 1 \/ s = -1) ->
             forall x, xmul (Fin s) (xfabs x) = Fin v ->
             exists a : R, x = Fin a /\ v = s * Rabs a).
  { intros s Hs x Hv. destruct (xfabs x) as [a| | |] eqn:E.
    - destruct (xfabs_fin _ _ E) as (b & -> & ->). exists b. split; [reflexivity|].
      simpl in Hv. congruence.
    - simpl in Hv. unfold scale_inf in Hv.
      destruct (rlt 0 s), (rlt s 0); discriminate.
    - simpl in Hv. unfold scale_inf in Hv.
      destruct (rlt 0 s), (rlt s 0); discriminate.
    - discriminate. }
  assert (Hb : forall a : R,
             xmul (Fin (636670701896486 / 100000000))
                  (xsub (Fin (314159265358979 / 100000000000000 / 2)) (xacos d)) = Fin a ->
             Rabs a <= 10000801).
  { intros a. destruct d as [r| | |]; simpl; try discriminate.
    destruct (_ && _); simpl; [|discriminate].
    intros E. injection E as <-. apply quarter_turn_bound. apply acos_bound. }
  destruct (IsBetween P P1 P2); cbn [negb]; intros Hv.
  - destruct (Hx 1 ltac:(left; reflexivity) _ Hv) as (a & Ea & ->).
    pose proof (Hb a Ea). pose proof (Rabs_pos a).
    rewrite Rmult_1_l. rewrite Rabs_Rabsolu. split; lra.
  - destruct (Hx (-1) ltac:(right; reflexivity) _ Hv) as (a & Ea & ->).
    pose proof (Hb a Ea). pose proof (Rabs_pos a).
    replace (-1 * Rabs a) with (- Rabs a) by ring.
    rewrite Rabs_Ropp, Rabs_Rabsolu. split; lra.
Qed.

Lemma SphericalDistance2_sign_witness :
  exists v : R,
    SphericalDistance2 (mkLatLon (Fin 0) (Fin (1 / 2))) P_origin P_east = Fin v
    /\ (if IsBetween (mkLatLon (Fin 0) (Fin (1 / 2))) P_origin P_east
        then 0 <= v else v <= 0)
    /\ Rabs v <= 10000801.
Proof.
  exists (Rabs (636670701896486 / 100000000
                * (314159265358979 / 100000000000000 / 2 + - acos 0))).
  assert (H : SphericalDistance2 (mkLatLon (Fin 0) (Fin (1 / 2))) P_origin P_east
              = Fin (Rabs (636670701896486 / 100000000
                           * (314159265358979 / 100000000000000 / 2 + - acos 0)))).
  { unfold SphericalDistance2. rewrite Normalize_origin_east.
    assert (HB : IsBetween (mkLatLon (Fin 0) (Fin (1 / 2))) P_origin P_east = true).
    { unfold IsBetween, IsBetween_u, P_origin, P_east. dconst.
      ideal_cbn. rewrite !Rmult_0_l, cos_0.
      replace ((1 + - 0) * (1 + - 0) * 1 * 1 + (0 + - 0) * (0 + - 0)) with 1 by ring.
      replace ((1 / 2 + - 0) * (1 + - 0) * 1 * 1 + (0 + - 0) * (0 + - 0)) with (1 / 2)
        by field.
      repeat (resolve_test lra; ideal_cbn). reflexivity. }
    rewrite HB. cbv zeta. cbn [negb].
    unfold ToSphericalCartesian, dot. dconst.
    unfold PI. rewrite dec_ideal. pow10.
    ideal_cbn. rewrite !Rmult_0_l, sin_0.
    match goal with |- context [rle (-1) ?a] => replace a with 0 by ring end.
    rewrite (rle_true (-1) 0), (rle_true 0 1) by lra.
    ideal_cbn. rewrite (req_false 2 0) by lra. ideal_cbn.
    f_equal. rewrite Rmult_1_l. reflexivity. }
  split; [exact H|].
  apply SphericalDistance2_sign. exact H.
Defined.

(** ** Positions on the sphere *)

Lemma cos_quadrants (x : R) :
  - Rtrigo1.PI < x < Rtrigo1.PI ->
  (0 < cos x <-> - (Rtrigo1.PI / 2) < x < Rtrigo1.PI / 2).
Proof.
  intros Hx. split.
  - intros Hc.
    destruct (Rle_dec (Rtrigo1.PI / 2) x) as [H1|H1].
    { pose proof (cos_le_0 x H1 ltac:(lra)). lra. }
    destruct (Rle_dec x (- (Rtrigo1.PI / 2))) as [H2|H2].
    { pose proof (cos_le_0 (- x) ltac:(lra) ltac:(lra)) as H. rewrite cos_neg in H. lra. }
    lra.
  - intros [H1 H2]. now apply cos_gt_0.
Qed.

Lemma atan_quotient (r x : R) :
  0 < r -> cos x <> 0 -> atan (r * sin x / (r * cos x)) = atan (tan x).
Proof. intros Hr Hc. unfold tan. f_equal. field. split; lra. Qed.

(** The angle of a point given by its radius and direction. *)
Lemma Ratan2_polar (r x : R) :
  0 < r -> - Rtrigo1.PI < x < Rtrigo1.PI ->
  Ratan2 (r * sin x) (r * cos x) = x.
Proof.
  intros Hr Hx. pose proof (cos_quadrants x Hx) as Hq. unfold Ratan2.
  destruct (Rlt_dec 0 (cos x)) as [Hc|Hc].
  - rewrite rlt_true by (apply Rmult_lt_0_compat; lra).
    rewrite atan_quotient by lra. apply atan_tan. now apply Hq.
  - destruct (Rlt_dec (cos x) 0) as [Hn|Hn].
    + assert (Hrc : r * cos x < 0).
      { replace (r * cos x) with (- (r * - cos x)) by ring.
        assert (0 < r * - cos x) by (apply Rmult_lt_0_compat; lra). lra. }
      rewrite rlt_false, rlt_true by lra.
      rewrite atan_quotient by lra.
      destruct (Rlt_dec 0 x) as [Hp|Hp].
      * assert (Hx2 : Rtrigo1.PI / 2 <= x).
        { destruct (Rlt_dec x (Rtrigo1.PI / 2)) as [Hl|Hl]; [|lra].
          assert (0 < cos x) by (apply Hq; lra). lra. }
        assert (Hs : 0 < sin x) by (apply sin_gt_0; lra).
        rewrite rle_true by (apply Rmult_le_pos; lra).
        replace (tan x) with (tan (x - Rtrigo1.PI)).
        2:{ unfold tan. rewrite sin_minus, cos_minus, sin_PI, cos_PI. field. lra. }
        rewrite atan_tan; [lra|].
        assert (x <> Rtrigo1.PI / 2) by (intros E; rewrite E, cos_PI2 in Hn; lra).
        lra.
      * assert (Hx2 : x <= - (Rtrigo1.PI / 2)).
        { destruct (Rlt_dec (- (Rtrigo1.PI / 2)) x) as [Hl|Hl]; [|lra].
          assert (0 < cos x) by (apply Hq; lra). lra. }
        assert (Hs : sin x < 0) by (apply sin_lt_0_var; pose proof PI_RGT_0; lra).
        assert (Hrs : r * sin x < 0).
        { replace (r * sin x) with (- (r * - sin x)) by ring.
          assert (0 < r * - sin x) by (apply Rmult_lt_0_compat; lra). lra. }
        rewrite rle_false by lra.
        replace (tan x) with (tan (x + Rtrigo1.PI)).
        2:{ unfold tan. rewrite sin_plus, cos_plus, sin_PI, cos_PI. field. lra. }
        rewrite atan_tan; [lra|].
        assert (x <> - (Rtrigo1.PI / 2)).
        { intros E. rewrite E, cos_neg, cos_PI2 in Hn. lra. }
        lra.
    + assert (Hc0 : cos x = 0) by lra.
      rewrite Hc0, Rmult_0_r. rewrite (rlt_false 0 0) by lra.
      assert (Hx2 : x = Rtrigo1.PI / 2 \/ x = - (Rtrigo1.PI / 2)).
      { destruct (Rlt_dec (Rtrigo1.PI / 2) x) as [H1|H1].
        { pose proof (cos_lt_0 x H1 ltac:(lra)). lra. }
        destruct (Rlt_dec x (- (Rtrigo1.PI / 2))) as [H2|H2].
        { pose proof (cos_lt_0 (- x) ltac:(lra) ltac:(lra)) as H.
          rewrite cos_neg in H. lra. }
        destruct (Req_dec x (Rtrigo1.PI / 2)) as [E|E]; [now left|].
        destruct (Req_dec x (- (Rtrigo1.PI / 2))) as [E'|E']; [now right|].
        assert (0 < cos x) by (apply Hq; lra). lra. }
      destruct Hx2 as [E|E]; rewrite E.
      * rewrite sin_PI2, Rmult_1_r. rewrite rlt_true by lra. reflexivity.
      * rewrite sin_neg, sin_PI2. rewrite rlt_false, rlt_true by lra. reflexivity.
Qed.

(** X16: [FromSphericalCartesian] inverts [ToSphericalCartesian]: for a
    latitude within 89 degrees and a longitude within 179 degrees the round
    trip returns the point itself (exact arithmetic). *)
Theorem spherical_round_trip :
  forall lat lon : R,
    -89 <= lat <= 89 -> -179 <= lon <= 179 ->
    FromSphericalCartesian (ToSphericalCartesian (mkLatLon (Fin lat) (Fin lon)))
    = mkLatLon (Fin lat) (Fin lon).
Proof.
  intros lat lon Hlat Hlon.
  unfold FromSphericalCartesian, ToSphericalCartesian. dconst.
  set (dg := 174532925199433 / 10000000000000000).
  set (R := 636670701896486 / 100000000).
  assert (Hdg : 0 < dg) by (unfold dg; lra).
  assert (HR : 0 < R) by (unfold R; lra).
  cbv zeta. ideal_cbn.
  assert (Hc : 0 < cos (lat * dg)) by (apply cos_gt_0; apply deg_quarter; lra).
  assert (HRc : 0 < R * cos (lat * dg)) by (apply Rmult_lt_0_compat; lra).
  replace (R * cos (lon * dg) * cos (lat * dg) * (R * cos (lon * dg) * cos (lat * dg))
           + R * sin (lon * dg) * cos (lat * dg) * (R * sin (lon * dg) * cos (lat * dg)))
    with ((R * cos (lat * dg)) * (R * cos (lat * dg))).
  2:{ pose proof (sin2_cos2 (lon * dg)) as H. unfold Rsqr in H.
      transitivity ((R * cos (lat * dg)) * (R * cos (lat * dg))
                    * (sin (lon * dg) * sin (lon * dg) + cos (lon * dg) * cos (lon * dg)));
        [rewrite H; ring | ring]. }
  rewrite rlt_false.
  2:{ pose proof (Rle_0_sqr (R * cos (lat * dg))) as H. exact H. }
  ideal_cbn. rewrite sqrt_square by lra.
  rewrite (req_false dg 0) by lra.
  rewrite Ratan2_polar by (try exact HR; apply deg_quarter in Hlat; fold dg in Hlat;
                           pose proof PI_RGT_0; lra).
  replace (R * sin (lon * dg) * cos (lat * dg)) with (R * cos (lat * dg) * sin (lon * dg))
    by ring.
  replace (R * cos (lon * dg) * cos (lat * dg)) with (R * cos (lat * dg) * cos (lon * dg))
    by ring.
  rewrite Ratan2_polar by (try exact HRc; apply deg_half; lra).
  f_equal; f_equal; field; lra.
Qed.

Lemma spherical_round_trip_witness :
  -89 <= 50 <= 89 /\ -179 <= 5 <= 179
  /\ FromSphericalCartesian (ToSphericalCartesian P_liege) = P_liege.
Proof. split; [lra|]. split; [lra|]. apply spherical_round_trip; lra. Defined.

(** X17: [ToSphericalCartesian] puts every finite point on the sphere of
    radius [m_Radius], and [SphericalCross] is the vector product of the two
    position vectors of [ToSphericalCartesian], scaled to unit vectors (exact
    arithmetic). *)
Theorem SphericalCross_vector_product :
  forall lat1 lon1 lat2 lon2 : R,
    exists x1 y1 z1 x2 y2 z2 : R,
      ToSphericalCartesian (mkLatLon (Fin lat1) (Fin lon1))
      = mkCartesian (Fin x1) (Fin y1) (Fin z1)
      /\ ToSphericalCartesian (mkLatLon (Fin lat2) (Fin lon2))
         = mkCartesian (Fin x2) (Fin y2) (Fin z2)
      /\ x1 * x1 + y1 * y1 + z1 * z1 = (636670701896486 / 100000000) ^ 2
      /\ exists nx ny nz : R,
           SphericalCross (mkLatLon (Fin lat1) (Fin lon1)) (mkLatLon (Fin lat2) (Fin lon2))
           = mkCartesian (Fin nx) (Fin ny) (Fin nz)
           /\ (636670701896486 / 100000000) ^ 2 * nx = y1 * z2 - z1 * y2
           /\ (636670701896486 / 100000000) ^ 2 * ny = z1 * x2 - x1 * z2
           /\ (636670701896486 / 100000000) ^ 2 * nz = x1 * y2 - y1 * x2.
Proof.
  intros lat1 lon1 lat2 lon2.
  unfold ToSphericalCartesian, SphericalCross. dconst.
  set (dg := 174532925199433 / 10000000000000000).
  set (R := 636670701896486 / 100000000).
  cbv zeta. ideal_cbn. rewrite (req_false 2 0) by lra. ideal_cbn.
  do 6 eexists. split; [reflexivity|]. split; [reflexivity|]. split.
  { pose proof (sin2_cos2 (lat1 * dg)) as H1. pose proof (sin2_cos2 (lon1 * dg)) as H2.
    unfold Rsqr in H1, H2.
    transitivity (R * R * ((sin (lon1 * dg) * sin (lon1 * dg)
                            + cos (lon1 * dg) * cos (lon1 * dg))
                           * (cos (lat1 * dg) * cos (lat1 * dg))
                           + sin (lat1 * dg) * sin (lat1 * dg))); [ring|].
    rewrite H2, Rmult_1_l, Rplus_comm, H1. ring. }
  do 3 eexists. split; [reflexivity|].
  set (A := (lon1 * dg + lon2 * dg) / 2).
  set (Dl := (lon1 * dg + - (lon2 * dg)) / 2).
  replace (lon1 * dg) with (A + Dl) by (unfold A, Dl; field).
  replace (lon2 * dg) with (A - Dl) by (unfold A, Dl; field).
  replace (-2 * Dl) with (- (2 * Dl)) by ring.
  replace (lat1 * dg + - (lat2 * dg)) with (lat1 * dg - lat2 * dg) by ring.
  rewrite sin_neg, sin_2a, !sin_plus, !sin_minus, !cos_plus, !cos_minus.
  pose proof (sin2_cos2 A) as HA. pose proof (sin2_cos2 Dl) as HD.
  unfold Rsqr in HA, HD.
  set (sA := sin A) in *. set (cA := cos A) in *.
  set (sD := sin Dl) in *. set (cD := cos Dl) in *.
  set (s1 := sin (lat1 * dg)). set (c1 := cos (lat1 * dg)).
  set (s2 := sin (lat2 * dg)). set (c2 := cos (lat2 * dg)).
  split; [ring|]. split; [ring|].
  transitivity (R ^ 2 * (c1 * c2 * - (2 * sD * cD)) * (sA * sA + cA * cA));
    [rewrite HA; ring | ring].
Qed.

(** ** A projection over no distance *)

(** X18: [SphericalProjection] over the distance 0 returns the latitude of
    the starting point and the longitude 0, whatever the azimuth and the
    longitude of the starting point: the function computes [dLong1] and never
    adds it to the longitude it returns. *)
Theorem SphericalProjection_zero_distance :
  forall lat lon az : R,
    -89 <= lat <= 89 ->
    SphericalProjection (mkLatLon (Fin lat) (Fin lon)) (Fin az) (Fin 0)
    = mkLatLon (Fin lat) (Fin 0).
Proof.
  intros lat lon az Hlat.
  unfold SphericalProjection. dconst. cbv zeta. ideal_cbn.
  set (dg := 174532925199433 / 10000000000000000).
  assert (Hdg : 0 < dg) by (unfold dg; lra).
  rewrite (req_false (636670701896486 / 100000000) 0) by lra. ideal_cbn.
  replace (0 / (636670701896486 / 100000000)) with 0 by (field; lra).
  rewrite sin_0, cos_0.
  pose proof (deg_quarter lat Hlat) as Hq. fold dg in Hq.
  replace (sin (dg * lat) * 1 + cos (dg * lat) * 0 * cos (az * dg))
    with (sin (dg * lat)) by ring.
  pose proof (SIN_bound (dg * lat)) as [Hs1 Hs2].
  rewrite (rle_true _ _ Hs1), (rle_true _ _ Hs2). ideal_cbn.
  rewrite asin_sin by (rewrite (Rmult_comm dg lat); lra).
  replace (sin (az * dg) * 0 * cos (dg * lat)) with 0 by ring.
  assert (Hc : 0 < cos (dg * lat)) by (apply cos_gt_0; rewrite (Rmult_comm dg lat); lra).
  assert (Hx : 0 < 1 + - (sin (dg * lat) * sin (dg * lat))).
  { pose proof (sin2_cos2 (dg * lat)) as H. unfold Rsqr in H.
    assert (0 < cos (dg * lat) * cos (dg * lat)) by (apply Rmult_lt_0_compat; lra).
    lra. }
  unfold Ratan2. rewrite (rlt_true _ _ Hx).
  replace (0 / (1 + - (sin (dg * lat) * sin (dg * lat)))) with 0
    by (unfold Rdiv; ring).
  rewrite atan_0.
  rewrite (req_false dg 0) by lra. ideal_cbn.
  rewrite (req_false 360 0) by lra. ideal_cbn.
  replace (0 / dg) with 0 by (field; lra).
  rewrite (Ztrunc_unit ((0 + 180) / 360)) by lra.
  f_equal; f_equal; [field; lra | simpl; ring].
Qed.

Lemma SphericalProjection_zero_distance_witness :
  -89 <= 50 <= 89
  /\ SphericalProjection P_liege (Fin 90) (Fin 0) = mkLatLon (Fin 50) (Fin 0).
Proof. split; [lra|]. apply SphericalProjection_zero_distance. lra. Defined.


(** ** Positions on the ellipsoid *)

(** X20: [ToCartesian] puts every finite point on the WGS84 ellipsoid:
    its result satisfies [x^2/a^2 + y^2/a^2 + z^2/b^2 = 1] with
    [b = a * (1 - 1/m_fInv)] (exact arithmetic). *)
Theorem ToCartesian_on_ellipsoid :
  forall lat lon : R,
    exists x y z : R,
      ToCartesian (mkLatLon (Fin lat) (Fin lon)) = mkCartesian (Fin x) (Fin y) (Fin z)
      /\ let a := 6378137 in
         let b := a * (1 - 1 / (298257223563 / 1000000000)) in
         x * x / (a * a) + y * y / (a * a) + z * z / (b * b) = 1.
Proof.
  intros lat lon. unfold ToCartesian. dconst.
  set (dg := 174532925199433 / 10000000000000000).
  cbv zeta. cbv delta [m_Ellipsoid]. ideal_cbn. rewrite !dec_ideal. pow10. ideal_cbn.
  rewrite (req_false (298257223563 / 1000000000) 0) by lra. ideal_cbn.
  set (f := 1 / (298257223563 / 1000000000)).
  assert (Hf : 33 / 10000 < f < 34 / 10000) by (unfold f; lra).
  set (e2 := 2 * f + - (f * f)).
  assert (He2 : 0 < e2 < 1 / 100).
  { unfold e2. assert (0 <= f * f <= 34 / 10000 * f).
    { split; [apply Rmult_le_pos; lra|]. apply Rmult_le_compat_r; lra. }
    lra. }
  set (s := sin (lat * dg)). set (c := cos (lat * dg)).
  assert (Hsc : s * s + c * c = 1) by (apply (sin2_cos2 (lat * dg))).
  assert (Hs2 : 0 <= s * s <= 1).
  { pose proof (Rle_0_sqr s) as H1. pose proof (Rle_0_sqr c) as H2.
    unfold Rsqr in H1, H2. lra. }
  set (W := 1 + - (e2 * s * s)).
  assert (HW : 99 / 100 <= W <= 1).
  { unfold W. rewrite Rmult_assoc.
    assert (0 <= e2 * (s * s) <= 1 / 100 * 1).
    { split; [apply Rmult_le_pos; lra|]. apply Rmult_le_compat; lra. }
    lra. }
  rewrite (rlt_false W 0) by lra. ideal_cbn.
  assert (Hw : 0 < sqrt W) by (apply sqrt_lt_R0; lra).
  rewrite (req_false (sqrt W) 0) by lra. ideal_cbn.
  do 3 eexists. split; [reflexivity|].
  cbv zeta. fold f.
  pose proof (sin2_cos2 (lon * dg)) as HL. unfold Rsqr in HL.
  set (sl := sin (lon * dg)) in *. set (cl := cos (lon * dg)) in *.
  assert (Hww : sqrt W * sqrt W = W) by (apply sqrt_sqrt; lra).
  assert (E1 : 1 + - e2 = (1 - f) * (1 - f)) by (unfold e2; ring).
  rewrite E1.
  set (w := sqrt W) in *.
  assert (Hcc : c * c = 1 - s * s) by lra.
  assert (Hll : cl * cl = 1 - sl * sl) by lra.
  assert (HWs : w * w = 1 - (1 - (1 - f) * (1 - f)) * (s * s)).
  { rewrite Hww. unfold W. rewrite <- E1. ring. }
  assert (Hf1 : 1 - f <> 0) by lra.
  apply Rmult_eq_reg_r with (r := w * w); [|apply Rmult_integral_contrapositive; split; lra].
  rewrite Rmult_1_l.
  transitivity (cl * cl * (c * c) + sl * sl * (c * c) + (1 - f) * (1 - f) * (s * s)).
  { field. repeat split; lra. }
  rewrite HWs, Hcc, Hll. ring.
Qed.

(** ** [FromCartesian] on the polar axis *)



(** ** The range of [VincentyProjection] *)

Lemma fmod_360_bound (a : R) : Rabs (a - IZR (Ztrunc (a / 360)) * 360) < 360.
Proof.
  unfold Ztrunc. destruct (Rle_dec 0 (a / 360)) as [H|H].
  - rewrite rle_true by exact H.
    destruct (base_Int_part (a / 360)) as [H1 H2].
    apply Rabs_def1; lra.
  - rewrite rle_false by lra.
    destruct (base_Int_part (- (a / 360))) as [H1 H2].
    rewrite opp_IZR. apply Rabs_def1; lra.
Qed.

Lemma xfmod_360_within (x : ideal) : within 360 (xfmod x (Fin 360)).
Proof.
  destruct x as [a| | |]; simpl; try exact I.
  rewrite (req_false 360 0) by lra. simpl. apply fmod_360_bound.
Qed.

Lemma Ratan2_right (b a : R) : 0 <= a -> Rabs (Ratan2 b a) <= Rtrigo1.PI / 2.
Proof.
  intros Ha. pose proof PI_RGT_0 as Hpi. unfold Ratan2.
  destruct (Rlt_dec 0 a) as [H|H].
  - rewrite rlt_true by exact H. pose proof (atan_bound (b / a)).
    apply Rabs_le. lra.
  - rewrite (rlt_false 0 a), (rlt_false a 0) by lra.
    destruct (rlt 0 b); [rewrite Rabs_pos_eq; lra|].
    destruct (rlt b 0); [rewrite Rabs_Ropp, Rabs_pos_eq; lra|].
    rewrite Rabs_R0. lra.
Qed.

Lemma latitude_within (t1 t2 : ideal) (rr : R) :
  0 < rr ->
  within 90 (xfmod (xdiv (xatan2 t1 (xmul (Fin rr) (xsqrt t2)))
                         (Fin (174532925199433 / 10000000000000000)))
                   (Fin 360)).
Proof.
  intros Hrr.
  set (dg := 174532925199433 / 10000000000000000).
  assert (Hdg : 0 < dg) by (unfold dg; lra).
  assert (Hq : Rtrigo1.PI / 2 < 90 * dg) by (pose proof PI_upper; unfold dg; lra).
  assert (Hang : forall th : R, Rabs th <= Rtrigo1.PI / 2 ->
                 within 90 (xfmod (xdiv (Fin th) (Fin dg)) (Fin 360))).
  { intros th Hth. simpl. rewrite (req_false dg 0) by lra. simpl.
    rewrite (req_false 360 0) by lra. simpl.
    assert (Hb : -90 < th / dg < 90).
    { assert (- (Rtrigo1.PI / 2) <= th <= Rtrigo1.PI / 2)
        by (unfold Rabs in Hth; destruct (Rcase_abs th); lra).
      apply Rdiv_bounds; [exact Hdg | lra]. }
    rewrite Ztrunc_small by lra.
    apply Rabs_def1; simpl; lra. }
  pose proof PI_RGT_0 as Hpi.
  assert (Hx : (exists a : R, xmul (Fin rr) (xsqrt t2) = Fin a /\ 0 <= a)
               \/ xmul (Fin rr) (xsqrt t2) = PInf \/ xmul (Fin rr) (xsqrt t2) = NaN).
  { destruct t2 as [a| | |]; simpl.
    - destruct (rlt a 0); simpl; [right; right; reflexivity|].
      left. eexists. split; [reflexivity|].
      apply Rmult_le_pos; [lra|apply sqrt_pos].
    - right. left. unfold scale_inf. now rewrite rlt_true.
    - right. right. reflexivity.
    - right. right. reflexivity. }
  destruct Hx as [(a & -> & Ha)|[->| ->]].
  - destruct t1 as [b| | |]; cbn [xatan2]; try exact I.
    + apply Hang. now apply Ratan2_right.
    + apply Hang. rewrite Rabs_pos_eq; lra.
    + apply Hang. rewrite Rabs_Ropp, Rabs_pos_eq; lra.
  - destruct t1 as [b| | |]; cbn [xatan2]; try exact I.
    + apply Hang. rewrite Rabs_R0. lra.
    + apply Hang. rewrite Rabs_pos_eq; lra.
    + apply Hang. rewrite Rabs_Ropp, Rabs_pos_eq; lra.
  - destruct t1; exact I.
Qed.


(** X22: when [VincentyProjection] returns, each coordinate is NaN or a
    number: never an infinity.  A numeric latitude is below 90 in magnitude
    and a numeric longitude below 360: the longitude is reduced by
    [fmod(., 360)] only, not to [-180, 180). *)
Theorem VincentyProjection_range :
  forall (fuel : nat) (this : CLatLon ideal) (dAzimuth dDistance : ideal)
         (p : CLatLon ideal),
    VincentyProjection fuel this dAzimuth dDistance = Some p ->
    within 90 (m_Latitude p) /\ within 360 (m_Longitude p).
Proof.
  intros fuel this dAzimuth dDistance p H.
  cbv beta delta [VincentyProjection] in H.
  repeat name_let H.
  destruct (VincentyProjection_loop _ _ _ _ _ _ _) as [v|]; [|discriminate].
  repeat name_let H.
  match type of H with Some ?q = Some _ => assert (Hp : p = q) by congruence end.
  rewrite Hp. cbn [m_Latitude m_Longitude]. split.
  - rewrite EdLat2.
    match goal with
    | E : ?t = (_ * dsqrt _)%D |- context [datan2 _ ?t] => rewrite E
    end.
    rewrite Er, Eflat.
    rewrite m_Deg2Rad_ideal. cbv delta [m_Ellipsoid]. cbn [m_fInv].
    rewrite dec_ideal. pow10.
    cbn [of_Z dsub ddiv dmul dsqrt datan2 dfmod ideal_arith ideal_cmath].
    cbn [xdiv xsub xneg xadd].
    rewrite (req_false (298257223563 / 1000000000) 0) by lra.
    cbn [xdiv xsub xneg xadd].
    apply latitude_within. lra.
  - apply xfmod_360_within.
Qed.

(** ** [VincentyProjection] over no distance *)

Lemma VincentyProjection_loop_zero (b0 a b sigma1 : R) (fuel : nat) :
  b0 * a <> 0 ->
  VincentyProjection_loop (Fin 0) (Fin b0) (Fin a) (Fin b) (Fin sigma1) (S fuel) (Fin 0)
  = Some (Fin 0, Fin 0).
Proof.
  intros Hba. unfold VincentyProjection_loop.
  assert (Hbody : VincentyProjection_body (Fin 0) (Fin b0) (Fin a) (Fin b) (Fin sigma1) (Fin 0)
                  = (Fin 0, Fin 0)).
  { unfold VincentyProjection_body. cbv zeta. ideal_cbn.
    rewrite (req_false (b0 * a) 0) by exact Hba.
    rewrite (req_false 4 0), (req_false 6 0) by lra. ideal_cbn.
    rewrite sin_0. f_equal. f_equal. unfold Rdiv. ring. }
  rewrite do_while_stop; rewrite Hbody; [reflexivity|].
  unfold VincentyProjection_cond, EPSILON. rewrite dec_ideal. cbn [fst snd].
  ideal_cbn. apply rlt_false.
  replace (0 + - 0) with 0 by ring. rewrite Rabs_R0. simpl. lra.
Qed.

Lemma mult_abs_bound (x y hx hy : R) :
  0 <= x <= hx -> - hy <= y <= hy -> - (hx * hy) <= x * y <= hx * hy.
Proof.
  intros [Hx1 Hx2] [Hy1 Hy2].
  assert (Hhy : 0 <= hy) by lra.
  assert (x * y <= x * hy) by (apply Rmult_le_compat_l; lra).
  assert (x * - hy <= x * y) by (apply Rmult_le_compat_l; lra).
  assert (x * hy <= hx * hy) by (apply Rmult_le_compat_r; lra).
  lra.
Qed.

Lemma cos_atan_pos (t : R) : 0 < cos (atan t).
Proof. pose proof (atan_bound t). apply cos_gt_0; lra. Qed.

Lemma VincentyProjection_zero_eval (lat lon az : R) (fuel : nat) :
  -89 <= lat <= 89 -> cos (az * (174532925199433 / 10000000000000000)) <> 0 ->
  forall r,
    r = VincentyProjection (S fuel) (mkLatLon (Fin lat) (Fin lon)) (Fin az) (Fin 0) ->
    r = Some (mkLatLon (Fin lat) (Fin (lon - IZR (Ztrunc (lon / 360)) * 360))).
Proof.
  intros Hlat Haz r H.
  cbv beta delta [VincentyProjection] in H.
  cbv beta iota delta [m_Latitude m_Longitude] in H.
  step_let H dAz HdAz lra.
  step_let H dLat1 HdLat1 lra.
  step_let H dLong1 HdLong1 lra.
  step_let H s Hs lra.
  step_let H a0 Ha0 lra.
  step_let H flat Hflat lra.
  assert (Bflat : 33528 / 10000000 < flat < 33529 / 10000000) by lra.
  step_let H rr Hr lra.
  assert (Brr : 996 / 1000 < rr < 997 / 1000) by lra.
  step_let H b0 Hb0 lra.
  assert (Bb0 : 6356751 < b0 < 6356753) by (rewrite Hb0, Ha0; lra).
  assert (Hq : - (Rtrigo1.PI / 2) < dLat1 < Rtrigo1.PI / 2).
  { rewrite HdLat1, Rmult_comm. now apply deg_quarter. }
  assert (Hcos : 0 < cos dLat1) by (apply cos_gt_0; lra).
  step_let H tanu1 Htanu1 lra.
  assert (Hcaz : cos dAz <> 0) by (rewrite HdAz; exact Haz).
  step_let H tansigma1 Hts1 lra.
  step_let H u1 Hu1 lra.
  step_let H sinu1 Hsinu1 lra.
  step_let H cosu1 Hcosu1 lra.
  assert (Hcu : 0 < cosu1) by (rewrite Hcosu1, Hu1; apply cos_atan_pos).
  step_let H sinalpha Hsa lra.
  assert (Bsa : -1 <= sinalpha <= 1).
  { rewrite Hsa. apply mult_sin_between.
    pose proof (COS_bound u1). rewrite <- Hcosu1 in *. lra. }
  assert (Bsa2 : 0 <= sinalpha * sinalpha <= 1) by (apply Rsqr_bound1; exact Bsa).
  step_let H cosalpha Hca lra.
  assert (Bca : 0 <= cosalpha * cosalpha <= 1).
  { rewrite Hca, sqrt_sqrt by lra. lra. }
  assert (Bb02 : 6356751 * 6356751 < b0 * b0 < 6356753 * 6356753)
    by (prod_bounds Bb0 Bb0; lra).
  step_let H usqr Husqr lra.
  assert (Busqr : 0 <= usqr < 1 / 100).
  { rewrite Husqr. 
    assert (Bk : 0 < (a0 * a0 + - (b0 * b0)) / (b0 * b0) < 1 / 100).
    { assert (Ea : a0 * a0 = 40680631590769) by (rewrite Ha0; lra).
      apply Rdiv_bounds; lra. }
    replace (cosalpha * cosalpha * (a0 * a0 + - (b0 * b0)) / (b0 * b0))
      with ((a0 * a0 + - (b0 * b0)) / (b0 * b0) * (cosalpha * cosalpha))
      by (unfold Rdiv; ring).
    apply Rmult_unit_bound; [lra | exact Bca]. }
  step_let H term1 Hterm1 lra.
  step_let H term2 Hterm2 lra.
  assert (Bt2 : 4000 <= term2 <= 4200).
  { pose proof (mult_abs_bound usqr (320 + - (175 * usqr)) (1 / 100) 320
                  ltac:(lra) ltac:(lra)) as B1.
    pose proof (mult_abs_bound usqr (-768 + usqr * (320 + - (175 * usqr))) (1 / 100) 800
                  ltac:(lra) ltac:(lra)) as B2.
    rewrite Hterm2. lra. }
  step_let H a Ha lra.
  assert (Ba : 1 <= a <= 2).
  { pose proof (mult_abs_bound term1 term2 (1 / 1000000) 4200
                  ltac:(lra) ltac:(lra)) as B1.
    assert (0 <= term1 * term2) by (apply Rmult_le_pos; lra).
    rewrite Ha. lra. }
  step_let H b Hb lra.
  assert (Hba : 0 < b0 * a) by (apply Rmult_lt_0_compat; lra).
  step_let H sg Hsg lra.
  assert (Hsg0 : sg = 0) by (rewrite Hsg, Hs; unfold Rdiv; ring).
  clear Hsg. subst sg.
  step_let H sg1 Hsg1 lra.
  rewrite Hs in H.
  rewrite VincentyProjection_loop_zero in H by lra.
  cbv iota in H.
  step_let H sg0 Hsg0 lra. subst sg0.
  step_let H twosigmam Htsm lra.
  step_let H ss Hss lra.
  rewrite sin_0 in Hss. subst ss.
  step_let H cs Hcs lra.
  rewrite cos_0 in Hcs. subst cs.
  step_let H c2sm Hc2sm lra.
  step_let H term1' Hterm1' lra.
  assert (Ht1 : term1' = sinu1) by (rewrite Hterm1'; ring).
  clear Hterm1'. subst term1'.
  step_let H term4 Hterm4 lra.
  assert (Ht2 : sinalpha * sinalpha + term4 * term4 = cosu1 * cosu1).
  { rewrite Hsa, Hterm4.
    pose proof (sin2_cos2 dAz) as E. unfold Rsqr in E.
    transitivity (cosu1 * cosu1 * (sin dAz * sin dAz + cos dAz * cos dAz));
      [ring | rewrite E; ring]. }
  assert (Hcu2 : 0 < cosu1 * cosu1) by (apply Rmult_lt_0_compat; lra).
  step_let H term2' Hterm2' lra.
  rewrite Ht2 in Hterm2'. subst term2'.
  step_let H term3 Hterm3 lra.
  rewrite sqrt_square in Hterm3 by lra.
  assert (Ht3 : 0 < term3) by (rewrite Hterm3; apply Rmult_lt_0_compat; lra).
  step_let H dLat2 HdLat2 lra.
  assert (HdLat2' : dLat2 = dLat1).
  { rewrite HdLat2. unfold Ratan2. rewrite (rlt_true 0 term3) by lra.
    replace (sinu1 / term3) with (tan dLat1); [apply atan_tan; lra|].
    rewrite Hterm3, Hsinu1, Hcosu1.
    replace (sin u1 / (rr * cos u1)) with (tan u1 / rr)
      by (unfold tan; field; split; [rewrite <- Hcosu1|]; lra).
    rewrite Hu1, tan_atan, Htanu1. unfold tan. field. split; lra. }
  clear HdLat2. subst dLat2.
  step_let H term5 Hterm5 lra.
  rewrite Rmult_0_l in Hterm5. subst term5.
  step_let H term6 Hterm6 lra.
  assert (Ht6 : term6 = cosu1) by (rewrite Hterm6; ring).
  clear Hterm6. subst term6.
  step_let H lam Hlam lra.
  assert (Hl0 : lam = 0).
  { rewrite Hlam. unfold Ratan2. rewrite (rlt_true 0 cosu1) by lra.
    unfold Rdiv. rewrite Rmult_0_l. apply atan_0. }
  clear Hlam. subst lam.
  step_let H c Hc lra.
  step_let H om Hom lra.
  assert (Ho0 : om = 0) by (rewrite Hom; ring).
  clear Hom. subst om.
  step_let H dLong2 HdLong2 lra.
  rewrite m_Deg2Rad_ideal in H.
  cbn [ddiv dfmod of_Z ideal_arith ideal_cmath xdiv] in H.
  rewrite (req_false (174532925199433 / 10000000000000000) 0) in H by lra.
  cbn [xfmod] in H. rewrite (req_false 360 0) in H by lra.
  replace (dLat1 / (174532925199433 / 10000000000000000)) with lat in H
    by (rewrite HdLat1; field).
  replace (dLong2 / (174532925199433 / 10000000000000000)) with lon in H
    by (rewrite HdLong2, HdLong1; field).
  rewrite (Ztrunc_small (lat / 360)) in H by lra.
  rewrite H. f_equal. f_equal. f_equal. simpl. ring.
Qed.

Lemma VincentyProjection_liege_zero :
  VincentyProjection 1 P_liege (Fin 0) (Fin 0)
  = Some (mkLatLon (Fin 50) (Fin (5 - IZR (Ztrunc (5 / 360)) * 360))).
Proof.
  apply (VincentyProjection_zero_eval 50 5 0 0); [lra | | reflexivity].
  rewrite Rmult_0_l, cos_0. lra.
Qed.

Lemma VincentyProjection_range_witness :
  VincentyProjection 1 P_liege (Fin 0) (Fin 0)
  = Some (mkLatLon (Fin 50) (Fin (5 - IZR (Ztrunc (5 / 360)) * 360)))
  /\ within 90 (Fin 50) /\ within 360 (Fin (5 - IZR (Ztrunc (5 / 360)) * 360)).
Proof.
  split; [exact VincentyProjection_liege_zero|].
  apply (VincentyProjection_range 1 P_liege (Fin 0) (Fin 0)
           (mkLatLon (Fin 50) (Fin (5 - IZR (Ztrunc (5 / 360)) * 360)))).
  exact VincentyProjection_liege_zero.
Defined.

(** X23: [VincentyProjection] over the distance 0 returns after one pass
    of its loop, with the latitude of the starting point and its longitude
    reduced by [fmod(., 360)], for every latitude within 89 degrees and every
    azimuth whose cosine is not 0 (exact arithmetic). *)
Theorem VincentyProjection_zero_distance :
  forall (lat lon az : R) (fuel : nat),
    -89 <= lat <= 89 -> cos (az * (174532925199433 / 10000000000000000)) <> 0 ->
    VincentyProjection (S fuel) (mkLatLon (Fin lat) (Fin lon)) (Fin az) (Fin 0)
    = Some (mkLatLon (Fin lat) (dfmod (Fin lon) #360)%D).
Proof.
  intros lat lon az fuel Hlat Haz.
  rewrite (VincentyProjection_zero_eval lat lon az fuel Hlat Haz _ eq_refl).
  cbn [dfmod of_Z ideal_arith ideal_cmath xfmod].
  rewrite (req_false 360 0) by lra. reflexivity.
Qed.

Lemma VincentyProjection_zero_distance_witness :
  -89 <= 50 <= 89 /\ cos (0 * (174532925199433 / 10000000000000000)) <> 0
  /\ VincentyProjection 1 P_liege (Fin 0) (Fin 0)
     = Some (mkLatLon (Fin 50) (dfmod (Fin 5) #360)%D).
Proof.
  assert (Hc : cos (0 * (174532925199433 / 10000000000000000)) <> 0)
    by (rewrite Rmult_0_l, cos_0; lra).
  split; [lra|]. split; [exact Hc|].
  apply (VincentyProjection_zero_distance 50 5 0 0); [lra | exact Hc].
Defined.

(** ** The azimuths of [VincentyDistance] *)





